(** * MusicCard: a shallow embedding of the player widget of src/App.tsx

    The file embeds the [MusicCard] component: its six state cells, the
    audio element behind [audioRef], the event handlers, the three effects
    and the commit that re-runs them, and proves the behaviour the
    specification states about them.

    Numbers.  A JavaScript number is an IEEE-754 double.  The component
    is embedded over a carrier that keeps [NaN] and the two infinities
    and takes a finite value as an exact rational: rounding and the sign
    of zero are not represented there, and every operator follows the
    ECMAScript definition on that carrier.  A statement over it speaks of
    the code where the code's arithmetic is exact, or where it states the
    code's own expression.  [Double] is the binary64 carrier itself;
    [formatTime] is embedded over it as well, so that it can be evaluated
    at a given double, rounding included. *)

From Stdlib Require Import QArith Qround Qminmax ZArith String Ascii List Bool Lia Lqa.
From Stdlib Require Import DecimalString.
From Stdlib Require Import SpecFloat.
Import ListNotations.

Local Open Scope string_scope.

(** ** JavaScript numbers *)

Module JS.

Inductive num : Type :=
| NaN
| Inf (negative : bool)
| Fin (q : Q).

Definition Qneg (q : Q) : bool := (Qnum q <? 0)%Z.
Definition Qzero (q : Q) : bool := (Qnum q =? 0)%Z.

Definition isNaN (a : num) : bool :=
  match a with NaN => true | _ => false end.

(** ToBoolean on a number: [0] and [NaN] are falsy. *)
Definition truthy (a : num) : bool :=
  match a with
  | NaN => false
  | Inf _ => true
  | Fin q => negb (Qzero q)
  end.

(** [Object.is] on numbers, the comparison React applies to state values
    and to effect dependencies. *)
Definition same (a b : num) : bool :=
  match a, b with
  | NaN, NaN => true
  | Inf s, Inf s' => Bool.eqb s s'
  | Fin x, Fin y => Qeq_bool x y
  | _, _ => false
  end.

Definition add (a b : num) : num :=
  match a, b with
  | NaN, _ | _, NaN => NaN
  | Inf s, Inf s' => if Bool.eqb s s' then Inf s else NaN
  | Inf s, Fin _ => Inf s
  | Fin _, Inf s => Inf s
  | Fin x, Fin y => Fin (x + y)
  end.

Definition sub (a b : num) : num :=
  match a, b with
  | NaN, _ | _, NaN => NaN
  | Inf s, Inf s' => if Bool.eqb s s' then NaN else Inf s
  | Inf s, Fin _ => Inf s
  | Fin _, Inf s => Inf (negb s)
  | Fin x, Fin y => Fin (x - y)
  end.

Definition mul (a b : num) : num :=
  match a, b with
  | NaN, _ | _, NaN => NaN
  | Inf s, Inf s' => Inf (xorb s s')
  | Inf s, Fin y => if Qzero y then NaN else Inf (xorb s (Qneg y))
  | Fin x, Inf s => if Qzero x then NaN else Inf (xorb (Qneg x) s)
  | Fin x, Fin y => Fin (x * y)
  end.

Definition div (a b : num) : num :=
  match a, b with
  | NaN, _ | _, NaN => NaN
  | Inf _, Inf _ => NaN
  | Inf s, Fin y => Inf (xorb s (Qneg y))
  | Fin _, Inf _ => Fin 0
  | Fin x, Fin y =>
      if Qzero y then (if Qzero x then NaN else Inf (Qneg x))
      else Fin (x / y)
  end.

(** Truncation toward zero. *)
Definition Qtrunc (q : Q) : Z := if Qneg q then Qceiling q else Qfloor q.

(** The [%] operator: the remainder takes the sign of the dividend, the
    quotient being truncated toward zero. *)
Definition rem (a b : num) : num :=
  match a, b with
  | NaN, _ | _, NaN => NaN
  | Inf _, _ => NaN
  | Fin x, Inf _ => Fin x
  | Fin x, Fin y =>
      if Qzero y then NaN
      else Fin (x - y * inject_Z (Qtrunc (x / y)))
  end.

Definition Math_floor (a : num) : num :=
  match a with
  | Fin q => Fin (inject_Z (Qfloor q))
  | _ => a
  end.

Definition Math_max (a b : num) : num :=
  match a, b with
  | NaN, _ | _, NaN => NaN
  | Inf false, _ | _, Inf false => Inf false
  | Inf true, _ => b
  | _, Inf true => a
  | Fin x, Fin y => Fin (Qmax x y)
  end.

Definition Math_min (a b : num) : num :=
  match a, b with
  | NaN, _ | _, NaN => NaN
  | Inf true, _ | _, Inf true => Inf true
  | Inf false, _ => b
  | _, Inf false => a
  | Fin x, Fin y => Fin (Qmin x y)
  end.

(** The decimal numeral of an integer, as [Number::toString] writes it. *)
Definition decimal (z : Z) : string :=
  NilZero.string_of_int (Z.to_int z).

Definition integral (q : Q) : bool := Qeq_bool q (inject_Z (Qfloor q)).

Section ToString.

(** [Number::toString] writes the shortest decimal that reads back as the
    same double.  For an integer below 2^53 in magnitude, where every
    integer is a double, that is its decimal numeral.  For every other
    finite value the digits depend on the double, which the exact carrier
    cannot express: that part is a parameter. *)
Variable shortest_digits : Q -> string.

Definition Number_toString (a : num) : string :=
  match a with
  | NaN => "NaN"
  | Inf false => "Infinity"
  | Inf true => "-Infinity"
  | Fin q =>
      if integral q && (Z.abs (Qfloor q) <? 2 ^ 53)%Z
      then decimal (Qfloor q)
      else shortest_digits q
  end.

End ToString.

(** [String.prototype.padStart]. *)
Fixpoint filler (k : nat) (pad cur : string) : string :=
  match k with
  | O => ""
  | S k' =>
      match cur with
      | String c r => String c (filler k' pad r)
      | EmptyString =>
          match pad with
          | EmptyString => ""
          | String c r => String c (filler k' pad r)
          end
      end
  end.

Definition padStart (target : nat) (pad s : string) : string :=
  if (target <=? String.length s)%nat then s
  else filler (target - String.length s) pad pad ++ s.

(** The number an integer is turned into: itself below 2^53 in magnitude,
    otherwise the nearest double, ties to even. *)
Definition nearest_double (n : Z) : num :=
  if (Z.abs n <? 2 ^ 53)%Z then Fin (inject_Z n)
  else
    match binary_normalize 53 1024 n 0 false with
    | S754_finite s m e => Fin (inject_Z (cond_Zopp s (Zpos m * 2 ^ e)))
    | S754_infinity s => Inf s
    | S754_zero _ => Fin 0
    | S754_nan => NaN
    end.

(** [parseInt(string)] with no radix: leading white space is skipped, a
    sign is read, a [0x] prefix selects radix 16, and the longest prefix of
    digits is the value; [NaN] when there is no digit.  Strings are
    sequences of bytes here, so only the white space of ASCII is known. *)
Definition is_space (c : ascii) : bool :=
  let n := nat_of_ascii c in
  ((9 <=? n) && (n <=? 13) || (n =? 32))%nat.

Fixpoint trimStart (s : string) : string :=
  match s with
  | String c r => if is_space c then trimStart r else s
  | EmptyString => s
  end.

Definition digit_value (radix : Z) (c : ascii) : option Z :=
  let n := Z.of_nat (nat_of_ascii c) in
  let v :=
    if ((48 <=? n) && (n <=? 57))%Z then Some (n - 48)%Z
    else if ((97 <=? n) && (n <=? 122))%Z then Some (n - 87)%Z
    else if ((65 <=? n) && (n <=? 90))%Z then Some (n - 55)%Z
    else None in
  match v with
  | Some d => if (d <? radix)%Z then Some d else None
  | None => None
  end.

Fixpoint digits_prefix (radix : Z) (s : string) (acc : option Z) : option Z :=
  match s with
  | String c r =>
      match digit_value radix c with
      | Some d =>
          digits_prefix radix r
            (Some (match acc with Some a => a * radix + d | None => d end)%Z)
      | None => acc
      end
  | EmptyString => acc
  end.

Definition parseInt (input : string) : num :=
  let s := trimStart input in
  let '(negative, s) :=
    match s with
    | String "-" r => (true, r)
    | String "+" r => (false, r)
    | _ => (false, s)
    end in
  let '(radix, s) :=
    match s with
    | String "0" (String "x" r) => (16%Z, r)
    | String "0" (String "X" r) => (16%Z, r)
    | _ => (10%Z, s)
    end in
  match digits_prefix radix s None with
  | None => NaN
  | Some n => nearest_double (if negative then - n else n)
  end.

End JS.

Import JS.

(** ** Doubles

    The binary64 format as the Standard Library specifies it: a double is
    a [spec_float], and division rounds to nearest, ties to even.  Only
    what [formatTime] uses is here. *)

Module Double.

Definition prec : Z := 53.
Definition emax : Z := 1024.

(** The double nearest to an integer. *)
Definition of_Z (n : Z) : spec_float := binary_normalize prec emax n 0 false.

Definition isNaN (x : spec_float) : bool :=
  match x with S754_nan => true | _ => false end.

Definition div : spec_float -> spec_float -> spec_float := SFdiv prec emax.

(** The integer a double stands for, when it stands for one. *)
Definition integer_value (x : spec_float) : option Z :=
  match x with
  | S754_zero _ => Some 0%Z
  | S754_finite s m e =>
      match e with
      | Zneg k =>
          if (Zpos m mod 2 ^ Zpos k =? 0)%Z
          then Some (cond_Zopp s (Zpos m / 2 ^ Zpos k))
          else None
      | _ => Some (cond_Zopp s (Zpos m * 2 ^ e))
      end
  | _ => None
  end.

(** [Math.floor]: a double with no fractional bits is its own floor; the
    floor of any other is an integer below 2^53, hence a double. *)
Definition Math_floor (x : spec_float) : spec_float :=
  match x with
  | S754_finite s m (Zneg k) =>
      let n := (Zpos m / 2 ^ Zpos k)%Z in
      let exact := (Zpos m mod 2 ^ Zpos k =? 0)%Z in
      if s then binary_normalize prec emax (if exact then - n else - n - 1) 0 true
      else binary_normalize prec emax n 0 false
  | _ => x
  end.

(** [x % y] is exact: the remainder of the magnitudes, with the sign of
    the dividend. *)
Definition rem (x y : spec_float) : spec_float :=
  match x, y with
  | S754_nan, _ | _, S754_nan => S754_nan
  | S754_infinity _, _ => S754_nan
  | _, S754_zero _ => S754_nan
  | _, S754_infinity _ => x
  | S754_zero _, _ => x
  | S754_finite s mx ex, S754_finite _ my ey =>
      let e := Z.min ex ey in
      let X := (Zpos mx * 2 ^ (ex - e))%Z in
      let Y := (Zpos my * 2 ^ (ey - e))%Z in
      binary_normalize prec emax (cond_Zopp s (X mod Y)) e s
  end.

Section ToString.

(** As for the exact carrier, the digits of a value that is not an
    integer below 2^53 are a parameter. *)
Variable shortest_digits : spec_float -> string.

Definition Number_toString (x : spec_float) : string :=
  match x with
  | S754_nan => "NaN"
  | S754_infinity false => "Infinity"
  | S754_infinity true => "-Infinity"
  | _ =>
      match integer_value x with
      | Some n => if (Z.abs n <? 2 ^ 53)%Z then decimal n else shortest_digits x
      | None => shortest_digits x
      end
  end.

Definition formatTime (seconds : spec_float) : string :=
  if isNaN seconds then "0:00"
  else
    let mins := Math_floor (div seconds (of_Z 60)) in
    let secs := Math_floor (rem seconds (of_Z 60)) in
    Number_toString mins ++ ":" ++ padStart 2 "0" (Number_toString secs).

End ToString.

End Double.

(** ** The audio element

    The element behind [audioRef] is the browser's; the component reads
    and assigns its properties, calls [play] and [pause] and registers
    listeners.  It is a record of those properties; an assignment stores
    the value.  [a_calls] keeps the order of the registration calls. *)

Inductive media_event : Type :=
| timeupdate | loadedmetadata | ended | loadstart | canplay.

(** The five closures the subscription effect creates on each run. *)
Inductive callback : Type :=
| updateTime | updateDuration | handleEnded | handleLoadStart | handleCanPlay.

(** A closure is a new object on every run of the effect: a listener is
    the callback together with the run that created it. *)
Record listener : Type := mkListener { l_run : nat; l_fn : callback }.

Inductive call : Type :=
| Added (ty : media_event) (l : listener)
| Removed (ty : media_event) (l : listener).

Record Audio : Type := mkAudio {
  a_currentTime : num;
  a_duration : num;
  a_volume : num;
  a_paused : bool;
  a_listeners : list (media_event * listener);
  a_calls : list call
}.

Definition media_event_eqb (x y : media_event) : bool :=
  match x, y with
  | timeupdate, timeupdate | loadedmetadata, loadedmetadata
  | ended, ended | loadstart, loadstart | canplay, canplay => true
  | _, _ => false
  end.

Definition callback_eqb (x y : callback) : bool :=
  match x, y with
  | updateTime, updateTime | updateDuration, updateDuration
  | handleEnded, handleEnded | handleLoadStart, handleLoadStart
  | handleCanPlay, handleCanPlay => true
  | _, _ => false
  end.

Definition registration_eqb (x y : media_event * listener) : bool :=
  media_event_eqb (fst x) (fst y)
  && callback_eqb (l_fn (snd x)) (l_fn (snd y))
  && (l_run (snd x) =? l_run (snd y))%nat.

(** [EventTarget.addEventListener]: a second registration of the same
    callback for the same event is dropped. *)
Definition addEventListener (ty : media_event) (l : listener) (a : Audio) : Audio :=
  mkAudio (a_currentTime a) (a_duration a) (a_volume a) (a_paused a)
    (if existsb (registration_eqb (ty, l)) (a_listeners a)
     then a_listeners a
     else a_listeners a ++ [(ty, l)])
    (a_calls a ++ [Added ty l]).

Definition removeEventListener (ty : media_event) (l : listener) (a : Audio) : Audio :=
  mkAudio (a_currentTime a) (a_duration a) (a_volume a) (a_paused a)
    (filter (fun r => negb (registration_eqb (ty, l) r)) (a_listeners a))
    (a_calls a ++ [Removed ty l]).

Definition set_currentTime (v : num) (a : Audio) : Audio :=
  mkAudio v (a_duration a) (a_volume a) (a_paused a) (a_listeners a) (a_calls a).

Definition set_duration (v : num) (a : Audio) : Audio :=
  mkAudio (a_currentTime a) v (a_volume a) (a_paused a) (a_listeners a) (a_calls a).

(** The element accepts a volume of [0, 1] only and raises on any other
    value; the record stores what it is given, which is what the element
    does for the values the slider can produce. *)
Definition set_volume (v : num) (a : Audio) : Audio :=
  mkAudio (a_currentTime a) (a_duration a) v (a_paused a) (a_listeners a) (a_calls a).

Definition set_paused (b : bool) (a : Audio) : Audio :=
  mkAudio (a_currentTime a) (a_duration a) (a_volume a) b (a_listeners a) (a_calls a).

(** A media element as the browser creates it: position 0, duration not
    known, full volume, paused, nothing registered. *)
Definition new_audio : Audio := mkAudio (Fin 0) NaN (Fin 1) true [] [].

(** ** The component *)

(** The six [useState] cells. *)
Record Widget : Type := mkWidget {
  isPlaying : bool;
  currentTime : num;
  duration : num;
  volume : num;
  isLiked : bool;
  isLoading : bool
}.

Definition setIsPlaying (b : bool) (w : Widget) : Widget :=
  mkWidget b (currentTime w) (duration w) (volume w) (isLiked w) (isLoading w).
Definition setCurrentTime (v : num) (w : Widget) : Widget :=
  mkWidget (isPlaying w) v (duration w) (volume w) (isLiked w) (isLoading w).
Definition setDuration (v : num) (w : Widget) : Widget :=
  mkWidget (isPlaying w) (currentTime w) v (volume w) (isLiked w) (isLoading w).
Definition setVolume (v : num) (w : Widget) : Widget :=
  mkWidget (isPlaying w) (currentTime w) (duration w) v (isLiked w) (isLoading w).
Definition setIsLiked (b : bool) (w : Widget) : Widget :=
  mkWidget (isPlaying w) (currentTime w) (duration w) (volume w) b (isLoading w).
Definition setIsLoading (b : bool) (w : Widget) : Widget :=
  mkWidget (isPlaying w) (currentTime w) (duration w) (volume w) (isLiked w) b.

(** The values [useState] is given on the first render. *)
Definition initial : Widget := mkWidget false (Fin 0) (Fin 0) (Fin 75) false false.

(** A mounted instance: the state cells, the [audioSrc] prop, the element
    [audioRef.current] points to, and what the run time holds for it: the
    number of runs of the subscription effect so far, the cleanup the last
    run returned (named by that run), the [play] promises not settled yet,
    and the console. *)
Record World : Type := mkWorld {
  widget : Widget;
  audioSrc : string;
  audioRef : option Audio;
  runs : nat;
  cleanup : option nat;
  pending : nat;
  console : list string;
  mounted : bool
}.

Definition with_widget (f : Widget -> Widget) (W : World) : World :=
  mkWorld (f (widget W)) (audioSrc W) (audioRef W) (runs W) (cleanup W)
    (pending W) (console W) (mounted W).

Definition with_audio (f : Audio -> Audio) (W : World) : World :=
  mkWorld (widget W) (audioSrc W) (option_map f (audioRef W)) (runs W)
    (cleanup W) (pending W) (console W) (mounted W).

(** *** Formatting *)

Section Render.

Variable shortest_digits : Q -> string.

Definition formatTime (seconds : num) : string :=
  if isNaN seconds then "0:00"
  else
    let mins := Math_floor (div seconds (Fin 60)) in
    let secs := Math_floor (rem seconds (Fin 60)) in
    Number_toString shortest_digits mins ++ ":"
      ++ padStart 2 "0" (Number_toString shortest_digits secs).

(** The text of the [<span>] next to the slider: [{volume}]. *)
Definition volume_label (w : Widget) : string :=
  Number_toString shortest_digits (volume w).

End Render.

Definition progressPercentage (w : Widget) : num :=
  if truthy (duration w) then mul (div (currentTime w) (duration w)) (Fin 100)
  else Fin 0.

(** *** Event handlers of the controls *)

Definition handlePlayPause (W : World) : World :=
  if isLoading (widget W) then W
  else with_widget (setIsPlaying (negb (isPlaying (widget W)))) W.

(** [clientX] is the pointer's [e.clientX]; [rect_left] and [rect_width]
    are [left] and [width] of [e.currentTarget.getBoundingClientRect()]. *)
Definition handleProgressClick (clientX rect_left rect_width : num) (W : World) : World :=
  match audioRef W with
  | None => W
  | Some _ =>
      if negb (truthy (duration (widget W))) then W
      else
        let x := sub clientX rect_left in
        let width := rect_width in
        let newTime := mul (div x width) (duration (widget W)) in
        with_widget (setCurrentTime newTime)
          (with_audio (set_currentTime newTime) W)
  end.

(** [value] is [e.target.value], the slider's value as a string. *)
Definition handleVolumeChange (value : string) (W : World) : World :=
  with_widget (setVolume (parseInt value)) W.

Definition handleSkipBack (W : World) : World :=
  with_audio
    (fun audio =>
       set_currentTime (Math_max (Fin 0) (sub (a_currentTime audio) (Fin 10))) audio)
    W.

Definition handleSkipForward (W : World) : World :=
  with_audio
    (fun audio =>
       set_currentTime
         (Math_min (duration (widget W)) (add (a_currentTime audio) (Fin 10))) audio)
    W.

Definition handleLike (W : World) : World :=
  with_widget (setIsLiked (negb (isLiked (widget W)))) W.

(** *** The listeners *)

(** What each closure of the subscription effect does when it is called.
    [audio] in the closures is the element the effect found in the ref. *)
Definition invoke (f : callback) (W : World) : World :=
  match f, audioRef W with
  | updateTime, Some audio => with_widget (setCurrentTime (a_currentTime audio)) W
  | updateDuration, Some audio => with_widget (setDuration (a_duration audio)) W
  | handleEnded, _ => with_widget (setIsPlaying false) W
  | handleLoadStart, _ => with_widget (setIsLoading true) W
  | handleCanPlay, _ => with_widget (setIsLoading false) W
  | _, None => W
  end.

(** The element fires an event: every listener registered for it is
    called, in the order of registration. *)
Definition dispatch (ty : media_event) (W : World) : World :=
  match audioRef W with
  | None => W
  | Some audio =>
      fold_left
        (fun W r => if media_event_eqb (fst r) ty then invoke (l_fn (snd r)) W else W)
        (a_listeners audio) W
  end.

(** The registrations one run of the subscription effect makes. *)
Definition subscription (run : nat) : list (media_event * listener) :=
  [ (timeupdate, mkListener run updateTime);
    (loadedmetadata, mkListener run updateDuration);
    (ended, mkListener run handleEnded);
    (loadstart, mkListener run handleLoadStart);
    (canplay, mkListener run handleCanPlay) ].

(** *** The three effects *)

(** [useEffect(..., [audioSrc])]: the body, and the cleanup it returns. *)
Definition subscribe (W : World) : World :=
  match audioRef W with
  | None =>
      mkWorld (widget W) (audioSrc W) None (runs W) None
        (pending W) (console W) (mounted W)
  | Some audio =>
      let run := runs W in
      let audio :=
        fold_left (fun a r => addEventListener (fst r) (snd r) a)
          (subscription run) audio in
      mkWorld (widget W) (audioSrc W) (Some audio) (S run) (Some run)
        (pending W) (console W) (mounted W)
  end.

Definition run_cleanup (W : World) : World :=
  match cleanup W with
  | None => W
  | Some run =>
      mkWorld (widget W) (audioSrc W)
        (option_map
           (fun audio =>
              fold_left (fun a r => removeEventListener (fst r) (snd r) a)
                (subscription run) audio)
           (audioRef W))
        (runs W) None (pending W) (console W) (mounted W)
  end.

(** [useEffect(..., [isPlaying])]: [audio.play()] returns a promise that
    the browser settles later; [audio.pause()] is synchronous.  The call
    of [play] is recorded as clearing [a_paused]; whether playback starts
    is the outcome of the promise. *)
Definition playback (W : World) : World :=
  match audioRef W with
  | None => W
  | Some audio =>
      if isPlaying (widget W)
      then mkWorld (widget W) (audioSrc W) (Some (set_paused false audio))
             (runs W) (cleanup W) (S (pending W)) (console W) (mounted W)
      else with_audio (set_paused true) W
  end.

(** [useEffect(..., [volume])]. *)
Definition propagate_volume (W : World) : World :=
  with_audio (set_volume (div (volume (widget W)) (Fin 100))) W.

(** After a render React re-runs the effects whose dependencies changed,
    in the order the component declares them; the cleanup of an effect
    runs before its next run. *)
Definition commit (prev W : World) : World :=
  let W := if String.eqb (audioSrc prev) (audioSrc W) then W
           else subscribe (run_cleanup W) in
  let W := if Bool.eqb (isPlaying (widget prev)) (isPlaying (widget W)) then W
           else playback W in
  if same (volume (widget prev)) (volume (widget W)) then W
  else propagate_volume W.

(** The first render: the [<audio>] element is created, the ref is set,
    and every effect runs once. *)
Definition mount (src : string) : World :=
  propagate_volume
    (playback
       (subscribe (mkWorld initial src (Some new_audio) 0 None 0 [] true))).

(** *** Events *)

Inductive outcome : Type :=
| Resolved
| Rejected (reason : string).

(** [.catch(console.error)] on the promise of [audio.play()]. *)
Definition settle (o : outcome) (W : World) : World :=
  match pending W with
  | O => W
  | S n =>
      mkWorld (widget W) (audioSrc W) (audioRef W) (runs W) (cleanup W) n
        (match o with
         | Resolved => console W
         | Rejected reason => console W ++ [reason]
         end)
        (mounted W)
  end.

Inductive event : Type :=
| ClickPlayPause
| ClickProgress (clientX rect_left rect_width : num)
| ChangeVolume (value : string)
| ClickSkipBack
| ClickSkipForward
| ClickLike
| Emit (ty : media_event)        (* the element fires an event *)
| Playback (position : num)      (* the element's position moves *)
| Metadata (length : num)        (* the element learns the duration *)
| SettlePlay (o : outcome)       (* a promise of [play] settles *)
| SwapSrc (src : string)         (* the parent passes another [audioSrc] *)
| Unmount.

Definition unmount (W : World) : World :=
  let W := run_cleanup W in
  mkWorld (widget W) (audioSrc W) (audioRef W) (runs W) (cleanup W)
    (pending W) (console W) false.

Definition swap (src : string) (W : World) : World :=
  mkWorld (widget W) src (audioRef W) (runs W) (cleanup W)
    (pending W) (console W) (mounted W).

(** The controls exist only while the component is mounted; the element
    and the promises live on their own. *)
Definition react (e : event) (W : World) : World :=
  match e with
  | Emit ty => dispatch ty W
  | Playback t => with_audio (set_currentTime t) W
  | Metadata d => with_audio (set_duration d) W
  | SettlePlay o => settle o W
  | _ =>
      if mounted W then
        match e with
        | ClickPlayPause => handlePlayPause W
        | ClickProgress clientX rect_left rect_width =>
            handleProgressClick clientX rect_left rect_width W
        | ChangeVolume value => handleVolumeChange value W
        | ClickSkipBack => handleSkipBack W
        | ClickSkipForward => handleSkipForward W
        | ClickLike => handleLike W
        | SwapSrc src => swap src W
        | Unmount => unmount W
        | _ => W
        end
      else W
  end.

Definition step (e : event) (W : World) : World :=
  let W' := react e W in
  if mounted W' then commit W W' else W'.

Definition run (trace : list event) (W : World) : World :=
  fold_left (fun W e => step e W) trace W.

(** ** Vocabulary of the properties *)

(** The wiring of an instance: whether it is mounted, the cleanup it
    holds, and what is registered on the element. *)
Definition wiring (W : World) :=
  (mounted W, cleanup W, runs W,
   option_map a_listeners (audioRef W), option_map a_calls (audioRef W)).

Definition subscribed (W : World) : Prop :=
  mounted W = true /\
  exists audio run,
    audioRef W = Some audio /\ cleanup W = Some run /\
    a_listeners audio = subscription run.

Definition released (W : World) : Prop :=
  mounted W = false /\ cleanup W = None /\
  exists audio, audioRef W = Some audio /\ a_listeners audio = [].

Definition reachable (W : World) : Prop :=
  exists src trace, W = run trace (mount src).

Ltac world W := destruct W as [w wsrc [audio|] rs cl pd cs mt].

(** Everything of an instance but its state cells. *)
Definition rest (W : World) :=
  (audioSrc W, audioRef W, runs W, cleanup W, pending W, console W, mounted W).

(** The callback the subscription effect registers for each event. *)
Definition handler_for (ty : media_event) : callback :=
  match ty with
  | timeupdate => updateTime
  | loadedmetadata => updateDuration
  | ended => handleEnded
  | loadstart => handleLoadStart
  | canplay => handleCanPlay
  end.

Definition is_unmount (e : event) : bool :=
  match e with Unmount => true | _ => false end.

Definition listeners_for (ty : media_event) (audio : Audio) : list listener :=
  map snd (filter (fun r => media_event_eqb (fst r) ty) (a_listeners audio)).

Definition is_toggle (e : event) : bool :=
  match e with ClickPlayPause => true | _ => false end.

(** The events that leave a load in progress: any but [canplay] and the
    unmount. *)
Definition keeps_loading (e : event) : bool :=
  match e with
  | Emit canplay | Unmount => false
  | _ => true
  end.

(** The position of the element, when there is one. *)
Definition position (W : World) : option num :=
  option_map a_currentTime (audioRef W).

(** The values a range control with [min="0"], [max="100"] and the
    default step can report: the decimal numerals of 0 to 100. *)
Definition slider_values : list Z := map Z.of_nat (seq 0 101).

Definition slider_value (value : string) : bool :=
  existsb (fun v => String.eqb value (decimal v)) slider_values.

Definition well_formed (e : event) : bool :=
  match e with
  | ChangeVolume value => slider_value value
  | _ => true
  end.

(** The volume cell together with the volume of the element. *)
Definition levels (W : World) : num * option num :=
  (volume (widget W), option_map a_volume (audioRef W)).

Definition level (v : Z) : num * option num :=
  (Fin (inject_Z v), Some (Fin (inject_Z v / 100))).



(** The last of [play] and [pause] the component called agrees with the
    is-playing cell. *)
Definition in_step (W : World) : Prop :=
  option_map a_paused (audioRef W) = Some (negb (isPlaying (widget W))).

(** What the element holds apart from its registrations. *)
Definition properties (W : World) :=
  option_map (fun a => (a_currentTime a, a_duration a, a_volume a, a_paused a))
    (audioRef W).

Definition wired (W : World) : Prop := subscribed W \/ released W.

(** The events that cannot write to the console: all but the rejection
    of a promise of [play]. *)
Definition quiet (e : event) : bool :=
  match e with
  | SettlePlay (Rejected _) => false
  | _ => true
  end.

(** The events whose handler writes a given cell. *)
Definition writes_isPlaying (e : event) : bool :=
  match e with ClickPlayPause | Emit ended => true | _ => false end.

Definition writes_currentTime (e : event) : bool :=
  match e with ClickProgress _ _ _ | Emit timeupdate => true | _ => false end.

Definition writes_duration (e : event) : bool :=
  match e with Emit loadedmetadata => true | _ => false end.

Definition writes_volume (e : event) : bool :=
  match e with ChangeVolume _ => true | _ => false end.

Definition writes_isLiked (e : event) : bool :=
  match e with ClickLike => true | _ => false end.

Definition writes_isLoading (e : event) : bool :=
  match e with Emit loadstart | Emit canplay => true | _ => false end.

Definition without (writes : event -> bool) (trace : list event) : bool :=
  forallb (fun e => negb (writes e)) trace.

Definition is_ended (e : event) : bool :=
  match e with Emit ended => true | _ => false end.

(** ** What stays in place *)

Lemma same_refl (a : num) : same a a = true.
Proof.
  destruct a as [|s|q]; simpl; auto.
  - apply Bool.eqb_reflx.
  - apply Qeq_bool_iff; reflexivity.
Qed.

Lemma subscribed_wiring (W W' : World) :
  wiring W' = wiring W -> subscribed W -> subscribed W'.
Proof.
  unfold wiring, subscribed.
  intros E [Hm (audio & r & Ha & Hc & Hl)].
  injection E as Em Ec _ El _.
  split; [congruence|].
  rewrite Ha in El; simpl in El.
  destruct (audioRef W') as [audio'|] eqn:Ha'; [|discriminate].
  injection El as El.
  exists audio', r; repeat split; congruence.
Qed.

Lemma wiring_playback (W : World) : wiring (playback W) = wiring W.
Proof. world W; unfold playback; simpl; destruct (isPlaying w); reflexivity. Qed.

Lemma wiring_propagate_volume (W : World) : wiring (propagate_volume W) = wiring W.
Proof. world W; reflexivity. Qed.

Lemma widget_playback (W : World) : widget (playback W) = widget W.
Proof. world W; unfold playback; simpl; destruct (isPlaying w); reflexivity. Qed.

Lemma widget_subscribe (W : World) : widget (subscribe W) = widget W.
Proof. world W; reflexivity. Qed.

Lemma widget_run_cleanup (W : World) : widget (run_cleanup W) = widget W.
Proof. world W; unfold run_cleanup; simpl; destruct cl; reflexivity. Qed.

Lemma widget_commit (prev W : World) : widget (commit prev W) = widget W.
Proof.
  unfold commit.
  destruct (String.eqb _ _);
    repeat match goal with |- context [if ?b then _ else _] => destruct b end;
    unfold propagate_volume, with_audio; simpl;
    rewrite ?widget_playback, ?widget_subscribe, ?widget_run_cleanup; reflexivity.
Qed.

(** A render that changes no dependency runs no effect. *)
Lemma commit_idle (prev W : World) :
  audioSrc W = audioSrc prev ->
  isPlaying (widget W) = isPlaying (widget prev) ->
  volume (widget W) = volume (widget prev) ->
  commit prev W = W.
Proof.
  intros Hs Hp Hv; unfold commit.
  rewrite Hs, String.eqb_refl, Hp, Bool.eqb_reflx, Hv, same_refl.
  reflexivity.
Qed.

Lemma rest_wiring (W W' : World) : rest W' = rest W -> wiring W' = wiring W.
Proof. unfold rest, wiring; intros E; injection E; intros; congruence. Qed.

Lemma rest_invoke (f : callback) (W : World) : rest (invoke f W) = rest W.
Proof. world W; destruct f; reflexivity. Qed.

Lemma rest_fold_invoke (ty : media_event) (l : list (media_event * listener)) (W : World) :
  rest (fold_left
          (fun W r => if media_event_eqb (fst r) ty then invoke (l_fn (snd r)) W else W)
          l W) = rest W.
Proof.
  revert W; induction l as [|r l IH]; intros W; simpl; [reflexivity|].
  rewrite IH. destruct (media_event_eqb _ _); [apply rest_invoke | reflexivity].
Qed.

Lemma rest_dispatch (ty : media_event) (W : World) : rest (dispatch ty W) = rest W.
Proof.
  unfold dispatch. destruct (audioRef W); [apply rest_fold_invoke | reflexivity].
Qed.

(** On a subscribed instance an event reaches exactly one callback. *)
Lemma dispatch_subscribed (ty : media_event) (W : World) :
  subscribed W -> dispatch ty W = invoke (handler_for ty) W.
Proof.
  intros [_ (audio & r & Ha & _ & Hl)].
  unfold dispatch; rewrite Ha, Hl.
  destruct ty; reflexivity.
Qed.

(** The cleanup of a run removes what that run registered, and the next
    run registers its own five closures on the emptied element. *)
Lemma cleanup_subscribed (W : World) (audio : Audio) (r : nat) :
  audioRef W = Some audio -> cleanup W = Some r ->
  a_listeners audio = subscription r ->
  exists audio',
    audioRef (run_cleanup W) = Some audio' /\
    a_listeners audio' = [] /\
    a_calls audio' =
      (a_calls audio ++ map (fun x => Removed (fst x) (snd x)) (subscription r))%list /\
    cleanup (run_cleanup W) = None /\
    mounted (run_cleanup W) = mounted W /\
    runs (run_cleanup W) = runs W /\
    widget (run_cleanup W) = widget W.
Proof.
  intros Ha Hc Hl.
  unfold run_cleanup; rewrite Hc, Ha; simpl.
  eexists; split; [reflexivity|].
  destruct audio as [ct du vo pa ls cs]; simpl in *; subst ls.
  unfold subscription, removeEventListener, registration_eqb; simpl.
  repeat (rewrite Nat.eqb_refl; simpl).
  rewrite <- !app_assoc; simpl.
  repeat split; reflexivity.
Qed.

Lemma subscribe_empty (W : World) (audio : Audio) :
  audioRef W = Some audio -> a_listeners audio = [] ->
  exists audio',
    audioRef (subscribe W) = Some audio' /\
    a_listeners audio' = subscription (runs W) /\
    a_calls audio' =
      (a_calls audio ++ map (fun x => Added (fst x) (snd x)) (subscription (runs W)))%list /\
    cleanup (subscribe W) = Some (runs W) /\
    mounted (subscribe W) = mounted W /\
    runs (subscribe W) = S (runs W).
Proof.
  intros Ha Hl.
  unfold subscribe; rewrite Ha; simpl.
  eexists; split; [reflexivity|].
  destruct audio as [ct du vo pa ls cs]; simpl in *; subst ls.
  unfold subscription, addEventListener, registration_eqb; simpl.
  rewrite <- !app_assoc; simpl.
  repeat split; reflexivity.
Qed.

Lemma subscribed_resubscribe (W : World) :
  subscribed W -> subscribed (subscribe (run_cleanup W)).
Proof.
  intros [Hm (audio & r & Ha & Hc & Hl)].
  destruct (cleanup_subscribed W audio r Ha Hc Hl)
    as (a1 & Ha1 & Hl1 & _ & _ & Hm1 & _ & _).
  destruct (subscribe_empty _ a1 Ha1 Hl1) as (a2 & Ha2 & Hl2 & _ & Hc2 & Hm2 & _).
  split; [congruence|].
  exists a2, (runs (run_cleanup W)); auto.
Qed.

Lemma subscribed_commit (prev W : World) :
  subscribed W -> subscribed (commit prev W).
Proof.
  intros H; unfold commit.
  set (W1 := if String.eqb _ _ then W else subscribe (run_cleanup W)).
  assert (H1 : subscribed W1).
  { unfold W1; destruct (String.eqb _ _); auto using subscribed_resubscribe. }
  clearbody W1.
  set (W2 := if Bool.eqb _ _ then W1 else playback W1).
  assert (H2 : subscribed W2).
  { unfold W2; destruct (Bool.eqb _ _); auto.
    eapply subscribed_wiring; [apply wiring_playback | exact H1]. }
  clearbody W2.
  destruct (same _ _); auto.
  eapply subscribed_wiring; [apply wiring_propagate_volume | exact H2].
Qed.

Lemma wiring_react (e : event) (W : World) :
  is_unmount e = false -> wiring (react e W) = wiring W.
Proof.
  intros He. destruct e; try discriminate; simpl;
    try (apply rest_wiring, rest_dispatch);
    world W; simpl;
    unfold handlePlayPause, handleProgressClick, settle; simpl;
    try destruct mt; try reflexivity;
    try destruct (isLoading w); try destruct (truthy (duration w));
    try destruct pd; reflexivity.
Qed.

Lemma subscribed_step (e : event) (W : World) :
  is_unmount e = false -> subscribed W -> subscribed (step e W).
Proof.
  intros He H.
  assert (H' : subscribed (react e W))
    by (eapply subscribed_wiring; [apply wiring_react, He | exact H]).
  unfold step. destruct H' as [Hm H'']. rewrite Hm.
  apply subscribed_commit; split; assumption.
Qed.

Lemma subscribed_mount (src : string) : subscribed (mount src).
Proof. split; [reflexivity|]. eexists _, _; repeat split; reflexivity. Qed.

Lemma released_unmount (W : World) : subscribed W -> released (step Unmount W).
Proof.
  intros [Hm (audio & r & Ha & Hc & Hl)].
  destruct (cleanup_subscribed W audio r Ha Hc Hl)
    as (a1 & Ha1 & Hl1 & _ & Hc1 & _ & _ & _).
  unfold step; simpl; rewrite Hm; simpl.
  repeat split; auto. exists a1; auto.
Qed.

Lemma released_step (e : event) (W : World) : released W -> released (step e W).
Proof.
  intros (Hm & Hc & audio & Ha & Hl).
  assert (Hr : mounted (react e W) = false /\ cleanup (react e W) = None /\
               option_map a_listeners (audioRef (react e W)) = Some []).
  { destruct e; simpl; rewrite ?Hm, ?Hc, ?Ha; simpl; rewrite ?Hl; auto.
    - pose proof (rest_dispatch ty W) as E; unfold rest in E.
      injection E; intros Em _ _ Ec _ Er _.
      rewrite Em, Ec, Er, Ha; simpl; rewrite Hl; auto.
    - unfold settle; destruct (pending W); simpl; rewrite ?Ha; simpl; rewrite ?Hl; auto. }
  destruct Hr as (Hm' & Hc' & Hl').
  unfold step; rewrite Hm'.
  split; [assumption | split; [assumption|]].
  destruct (audioRef (react e W)) as [a'|]; [|discriminate].
  exists a'; split; [reflexivity | simpl in Hl'; congruence].
Qed.

(** Every world reached from a mount is wired in one of the two ways. *)
Lemma wired_run (trace : list event) (W : World) :
  subscribed W \/ released W ->
  subscribed (run trace W) \/ released (run trace W).
Proof.
  revert W; induction trace as [|e trace IH]; intros W H; [exact H|].
  simpl; apply IH.
  destruct H as [H|H]; [|right; apply released_step, H].
  destruct (is_unmount e) eqn:He.
  - destruct e; try discriminate. right; apply released_unmount, H.
  - left; apply subscribed_step; assumption.
Qed.

Lemma reachable_mounted (W : World) :
  reachable W -> mounted W = true -> subscribed W.
Proof.
  intros (src & trace & ->) Hm.
  destruct (wired_run trace (mount src)) as [H|[H _]]; auto.
  - left; apply subscribed_mount.
  - congruence.
Qed.

(** ** The state on mount *)

(** C10: right after the mount, before any input or media event, the
    state cells hold is-playing = false, position 0, duration 0, volume 75,
    is-liked = false and is-loading = false. *)
Theorem mount_initial_state (src : string) :
  widget (mount src) = mkWidget false (Fin 0) (Fin 0) (Fin 75) false false.
Proof. reflexivity. Qed.

(** ** Play and pause *)

Lemma step_mounted (e : event) (W : World) :
  mounted (react e W) = true -> step e W = commit W (react e W).
Proof. intros H; unfold step; rewrite H; reflexivity. Qed.

Lemma toggle_while_loading (W : World) :
  mounted W = true -> isLoading (widget W) = true -> step ClickPlayPause W = W.
Proof.
  intros Hm Hl.
  rewrite step_mounted; simpl; rewrite Hm; unfold handlePlayPause; rewrite Hl; auto.
  apply commit_idle; reflexivity.
Qed.

(** C1: while is-loading is true the toggle changes nothing at all; when
    it is false the toggle negates is-playing and leaves the other cells
    as they are. *)
Theorem play_pause_toggle (W : World) :
  mounted W = true ->
  (isLoading (widget W) = true -> step ClickPlayPause W = W) /\
  (isLoading (widget W) = false ->
   widget (step ClickPlayPause W)
   = setIsPlaying (negb (isPlaying (widget W))) (widget W)).
Proof.
  intros Hm; split; intros Hl.
  - apply toggle_while_loading; assumption.
  - rewrite step_mounted; simpl; rewrite Hm; unfold handlePlayPause; rewrite Hl; auto.
    rewrite widget_commit; reflexivity.
Qed.

Lemma play_pause_toggle_witness :
  step ClickPlayPause (run [Emit loadstart] (mount "a.mp3"))
  = run [Emit loadstart] (mount "a.mp3")
  /\ isPlaying (widget (step ClickPlayPause (mount "a.mp3"))) = true.
Proof.
  split.
  - apply (proj1 (play_pause_toggle (run [Emit loadstart] (mount "a.mp3")) eq_refl)).
    reflexivity.
  - rewrite (proj2 (play_pause_toggle (mount "a.mp3") eq_refl) eq_refl).
    reflexivity.
Defined.

(** The toggle on a paused, ready instance issues [play]: a promise is
    left to settle. *)
Lemma toggle_issues_play (W : World) (element : Audio) :
  mounted W = true -> audioRef W = Some element ->
  isLoading (widget W) = false -> isPlaying (widget W) = false ->
  isPlaying (widget (step ClickPlayPause W)) = true /\
  pending (step ClickPlayPause W) = S (pending W).
Proof.
  intros Hm Ha Hl Hp.
  rewrite step_mounted; simpl; rewrite Hm; unfold handlePlayPause; rewrite Hl; auto.
  world W; simpl in *; [|discriminate]; subst.
  unfold commit; simpl. rewrite String.eqb_refl, Hp; simpl.
  rewrite same_refl; auto.
Qed.

(** C2: when the promise of [play] is rejected the reason goes to the
    console and no state cell changes: is-playing keeps its value, and the
    element is not touched either. *)
Theorem rejected_play_is_logged (W : World) (reason : string) :
  pending W <> 0%nat ->
  let W' := step (SettlePlay (Rejected reason)) W in
  widget W' = widget W /\
  isPlaying (widget W') = isPlaying (widget W) /\
  audioRef W' = audioRef W /\
  console W' = (console W ++ [reason])%list /\
  S (pending W') = pending W.
Proof.
  intros Hp W'.
  assert (E : W' = settle (Rejected reason) W).
  { unfold W', step; simpl.
    destruct (mounted _); [|reflexivity].
    apply commit_idle; unfold settle; destruct (pending W); reflexivity. }
  rewrite E; unfold settle.
  destruct (pending W); [congruence|]; simpl; auto.
Qed.

Lemma rejected_play_is_logged_witness :
  let W := step ClickPlayPause (mount "a.mp3") in
  let W' := step (SettlePlay (Rejected "NotAllowedError")) W in
  isPlaying (widget W) = true /\
  widget W' = widget W /\
  isPlaying (widget W') = isPlaying (widget W) /\
  audioRef W' = audioRef W /\
  console W' = (console W ++ ["NotAllowedError"])%list /\
  S (pending W') = pending W.
Proof.
  split; [reflexivity|].
  apply (rejected_play_is_logged (step ClickPlayPause (mount "a.mp3")) "NotAllowedError").
  simpl; discriminate.
Defined.

(** C8: whatever is-playing was, the [ended] event leaves it false (and
    the other cells as they were). *)
Theorem ended_resets_isPlaying (W : World) :
  reachable W -> mounted W = true ->
  isPlaying (widget (step (Emit ended) W)) = false /\
  widget (step (Emit ended) W) = setIsPlaying false (widget W).
Proof.
  intros Hr Hm.
  pose proof (reachable_mounted W Hr Hm) as Hs.
  assert (E : widget (step (Emit ended) W) = setIsPlaying false (widget W)).
  { rewrite step_mounted; simpl; rewrite (dispatch_subscribed _ _ Hs); simpl; auto.
    rewrite widget_commit; reflexivity. }
  rewrite E; auto.
Qed.

Lemma ended_resets_isPlaying_witness :
  let W := run [ClickPlayPause] (mount "a.mp3") in
  isPlaying (widget W) = true /\
  isPlaying (widget (step (Emit ended) W)) = false /\
  widget (step (Emit ended) W) = setIsPlaying false (widget W).
Proof.
  split; [reflexivity|].
  apply (ended_resets_isPlaying (run [ClickPlayPause] (mount "a.mp3"))).
  - exists "a.mp3", [ClickPlayPause]; reflexivity.
  - reflexivity.
Defined.

(** ** Subscription *)

Lemma one_listener_each (run : nat) (audio : Audio) (ty : media_event) :
  a_listeners audio = subscription run ->
  listeners_for ty audio = [mkListener run (handler_for ty)].
Proof. intros H; unfold listeners_for; rewrite H; destruct ty; reflexivity. Qed.

(** C9: on a mounted instance the element carries the five listeners of
    one run of the effect, one for each event.  When [audioSrc] changes,
    the calls made on the element are the five removals of those listeners
    followed by the five registrations of the next run, and again one
    listener for each event is left; on unmount the five are removed and
    none is left. *)
Theorem resubscription (W : World) :
  reachable W -> mounted W = true ->
  exists audio run,
    audioRef W = Some audio /\
    a_listeners audio = subscription run /\
    (forall ty, listeners_for ty audio = [mkListener run (handler_for ty)]) /\
    (forall src, String.eqb (audioSrc W) src = false ->
       exists audio',
         audioRef (step (SwapSrc src) W) = Some audio' /\
         a_calls audio' =
           (a_calls audio
              ++ map (fun x => Removed (fst x) (snd x)) (subscription run)
              ++ map (fun x => Added (fst x) (snd x)) (subscription (runs W)))%list /\
         a_listeners audio' = subscription (runs W) /\
         (forall ty,
            listeners_for ty audio' = [mkListener (runs W) (handler_for ty)])) /\
    (exists audio',
       audioRef (step Unmount W) = Some audio' /\
       a_calls audio' =
         (a_calls audio
            ++ map (fun x => Removed (fst x) (snd x)) (subscription run))%list /\
       a_listeners audio' = []).
Proof.
  intros Hr Hm.
  destruct (reachable_mounted W Hr Hm) as [_ (audio & r & Ha & Hc & Hl)].
  exists audio, r.
  split; [assumption | split; [assumption | split]].
  { intros ty; apply one_listener_each, Hl. }
  split.
  - intros src Hsrc.
    assert (E : step (SwapSrc src) W = subscribe (run_cleanup (swap src W))).
    { assert (Hre : react (SwapSrc src) W = swap src W)
        by (simpl; rewrite Hm; reflexivity).
      rewrite step_mounted, Hre by (rewrite Hre; exact Hm).
      unfold commit. cbn [swap audioSrc]. rewrite Hsrc.
      rewrite widget_subscribe, widget_run_cleanup; cbn [swap widget].
      rewrite Bool.eqb_reflx, widget_subscribe, widget_run_cleanup; cbn [swap widget].
      rewrite same_refl; reflexivity. }
    rewrite E.
    destruct (cleanup_subscribed (swap src W) audio r Ha Hc Hl)
      as (a1 & Ha1 & Hl1 & Hk1 & _ & _ & Hr1 & _).
    destruct (subscribe_empty _ a1 Ha1 Hl1) as (a2 & Ha2 & Hl2 & Hk2 & _).
    rewrite Hr1 in *. cbn [swap runs] in *.
    exists a2. split; [assumption|].
    split; [rewrite Hk2, Hk1, <- app_assoc; reflexivity|].
    split; [assumption|].
    intros ty; apply one_listener_each, Hl2.
  - destruct (cleanup_subscribed W audio r Ha Hc Hl)
      as (a1 & Ha1 & Hl1 & Hk1 & _).
    exists a1. unfold step; simpl; rewrite Hm; simpl. auto.
Qed.

Lemma resubscription_witness :
  let W := run [ClickPlayPause; SwapSrc "b.mp3"] (mount "a.mp3") in
  exists audio run,
    audioRef W = Some audio /\
    a_listeners audio = subscription run /\
    (forall ty, listeners_for ty audio = [mkListener run (handler_for ty)]) /\
    (forall src, String.eqb (audioSrc W) src = false ->
       exists audio',
         audioRef (step (SwapSrc src) W) = Some audio' /\
         a_calls audio' =
           (a_calls audio
              ++ map (fun x => Removed (fst x) (snd x)) (subscription run)
              ++ map (fun x => Added (fst x) (snd x)) (subscription (runs W)))%list /\
         a_listeners audio' = subscription (runs W) /\
         (forall ty,
            listeners_for ty audio' = [mkListener (runs W) (handler_for ty)])) /\
    (exists audio',
       audioRef (step Unmount W) = Some audio' /\
       a_calls audio' =
         (a_calls audio
            ++ map (fun x => Removed (fst x) (snd x)) (subscription run))%list /\
       a_listeners audio' = []).
Proof.
  apply (resubscription (run [ClickPlayPause; SwapSrc "b.mp3"] (mount "a.mp3"))).
  - exists "a.mp3", [ClickPlayPause; SwapSrc "b.mp3"]; reflexivity.
  - reflexivity.
Defined.

(** ** Loading *)

Lemma invoke_never_plays (f : callback) (W : World) :
  isPlaying (widget W) = false -> isPlaying (widget (invoke f W)) = false.
Proof. world W; destruct f; simpl; auto. Qed.

Lemma dispatch_never_plays (ty : media_event) (W : World) :
  isPlaying (widget W) = false -> isPlaying (widget (dispatch ty W)) = false.
Proof.
  unfold dispatch. destruct (audioRef W) as [a|]; auto.
  generalize (a_listeners a); intros l; revert W.
  induction l as [|r l IH]; intros W H; simpl; auto.
  apply IH. destruct (media_event_eqb _ _); auto using invoke_never_plays.
Qed.

(** Only the toggle turns is-playing on. *)
Lemma only_toggle_plays (e : event) (W : World) :
  is_toggle e = false -> isPlaying (widget W) = false ->
  isPlaying (widget (step e W)) = false.
Proof.
  intros He Hp.
  assert (H : isPlaying (widget (react e W)) = false).
  { destruct e; try discriminate; simpl;
      auto using dispatch_never_plays;
      world W; simpl in *; unfold handleProgressClick, settle, unmount, run_cleanup;
      simpl; try destruct mt; simpl; auto;
      try destruct (truthy (duration w)); try destruct pd; try destruct cl; simpl; auto. }
  unfold step. destruct (mounted _); auto. rewrite widget_commit; auto.
Qed.

Lemma run_never_plays (trace : list event) (W : World) :
  forallb (fun e => negb (is_toggle e)) trace = true ->
  isPlaying (widget W) = false ->
  isPlaying (widget (run trace W)) = false.
Proof.
  revert W; induction trace as [|e trace IH]; intros W Ht Hp; simpl in *; auto.
  apply andb_prop in Ht as [He Ht].
  apply IH; auto. apply only_toggle_plays; auto.
  destruct (is_toggle e); auto; discriminate.
Qed.

(** While a load is in progress the toggle is ignored: is-loading stays
    true and is-playing cannot rise. *)
Lemma loading_step (e : event) (W : World) :
  subscribed W -> isLoading (widget W) = true -> keeps_loading e = true ->
  subscribed (step e W) /\
  isLoading (widget (step e W)) = true /\
  (isPlaying (widget W) = false -> isPlaying (widget (step e W)) = false).
Proof.
  intros Hs Hl He.
  assert (Hu : is_unmount e = false) by (destruct e; auto; discriminate).
  split; [apply subscribed_step; assumption|].
  destruct (is_toggle e) eqn:Ht.
  - destruct e; try discriminate.
    destruct Hs as [Hm _].
    rewrite (toggle_while_loading W Hm Hl); auto.
  - split; [|apply only_toggle_plays; assumption].
    pose proof Hs as [Hm _].
    unfold step.
    assert (H : isLoading (widget (react e W)) = true).
    { destruct e; try discriminate; simpl;
        try (rewrite (dispatch_subscribed _ _ Hs); destruct ty; try discriminate);
        world W; simpl in *; unfold handleProgressClick, settle; simpl;
        try destruct mt; simpl; auto;
        try destruct (truthy (duration w)); try destruct pd; simpl; auto. }
    destruct (mounted (react e W)); auto. rewrite widget_commit; auto.
Qed.

Lemma loading_run (trace : list event) (W : World) :
  subscribed W -> isLoading (widget W) = true ->
  forallb keeps_loading trace = true ->
  subscribed (run trace W) /\
  isLoading (widget (run trace W)) = true /\
  (isPlaying (widget W) = false -> isPlaying (widget (run trace W)) = false).
Proof.
  revert W; induction trace as [|e trace IH]; intros W Hs Hl Ht; simpl in *; auto.
  apply andb_prop in Ht as [He Ht].
  destruct (loading_step e W Hs Hl He) as (Hs' & Hl' & Hp').
  destruct (IH _ Hs' Hl' Ht) as (Hs'' & Hl'' & Hp'').
  auto.
Qed.

(** C3, as stated, fails: is-playing need not be false at the [canplay]
    that follows a [loadstart].  The user starts playback, the parent then
    passes another [audioSrc]; the element reloads, and at [canplay]
    is-playing is still true. *)
Lemma canplay_may_find_isPlaying_true :
  ~ (forall (src : string) (before during : list event),
       forallb keeps_loading during = true ->
       isPlaying
         (widget
            (run (before ++ Emit loadstart :: during ++ [Emit canplay]) (mount src)))
       = false).
Proof.
  intros H.
  specialize (H "a.mp3" [ClickPlayPause; SwapSrc "b.mp3"] [] eq_refl).
  vm_compute in H. discriminate.
Qed.

(** ** Seeking *)

Lemma Qzero_iff (q : Q) : Qzero q = true <-> q == 0.
Proof.
  unfold Qzero, Qeq; simpl. rewrite Z.eqb_eq. lia.
Qed.

Lemma Qzero_false (q : Q) : ~ q == 0 -> Qzero q = false.
Proof.
  intros H. destruct (Qzero q) eqn:E; auto.
  apply Qzero_iff in E; contradiction.
Qed.

Lemma step_skip_back (W : World) :
  mounted W = true -> step ClickSkipBack W = handleSkipBack W.
Proof.
  intros Hm. rewrite step_mounted; simpl; rewrite Hm; auto.
  apply commit_idle; reflexivity.
Qed.

Lemma step_skip_forward (W : World) :
  mounted W = true -> step ClickSkipForward W = handleSkipForward W.
Proof.
  intros Hm. rewrite step_mounted; simpl; rewrite Hm; auto.
  apply commit_idle; reflexivity.
Qed.

(** C4: with the element at position [t] and the duration cell at [d],
    skip-back moves the element to max(0, t - 10) and skip-forward to
    min(d, t + 10); from t = d - 3 skip-forward gives d, and from t = 4
    skip-back gives 0. *)
Theorem skip_clamps (W : World) (audio : Audio) (t d : Q) :
  mounted W = true ->
  audioRef W = Some audio ->
  a_currentTime audio = Fin t ->
  duration (widget W) = Fin d ->
  position (step ClickSkipBack W) = Some (Fin (Qmax 0 (t - 10))) /\
  position (step ClickSkipForward W) = Some (Fin (Qmin d (t + 10))) /\
  (t == d - 3 -> position (step ClickSkipForward W) = Some (Fin d)) /\
  (t == 4 -> position (step ClickSkipBack W) = Some (Fin 0)).
Proof.
  intros Hm Ha Ht Hd.
  assert (Hb : position (step ClickSkipBack W) = Some (Fin (Qmax 0 (t - 10)))).
  { rewrite step_skip_back by assumption.
    unfold position, handleSkipBack, with_audio; simpl.
    rewrite Ha; simpl; rewrite Ht; reflexivity. }
  assert (Hf : position (step ClickSkipForward W) = Some (Fin (Qmin d (t + 10)))).
  { rewrite step_skip_forward by assumption.
    unfold position, handleSkipForward, with_audio; simpl.
    rewrite Ha; simpl; rewrite Ht, Hd; reflexivity. }
  repeat split; auto.
  - intros E. rewrite Hf. do 2 f_equal.
    unfold Qmin, GenericMinMax.gmin.
    destruct (Qcompare_spec d (t + 10)); auto. lra.
  - intros E. rewrite Hb. do 2 f_equal.
    unfold Qmax, GenericMinMax.gmax.
    destruct (Qcompare_spec 0 (t - 10)); auto. lra.
Qed.

Lemma skip_clamps_witness :
  let W := run [Metadata (Fin 200); Emit loadedmetadata; Playback (Fin 197)] (mount "a.mp3") in
  position (step ClickSkipBack W) = Some (Fin (Qmax 0 (197 - 10))) /\
  position (step ClickSkipForward W) = Some (Fin (Qmin 200 (197 + 10))) /\
  position (step ClickSkipForward W) = Some (Fin 200) /\
  position (step ClickSkipBack (run [Playback (Fin 4)] W)) = Some (Fin 0).
Proof.
  destruct (skip_clamps
              (run [Metadata (Fin 200); Emit loadedmetadata; Playback (Fin 197)]
                 (mount "a.mp3"))
              (set_currentTime (Fin 197) (set_duration (Fin 200)
                 (fold_left (fun a r => addEventListener (fst r) (snd r) a)
                    (subscription 0) (set_volume (Fin (75 / 100)) new_audio))))
              197 200 eq_refl)
    as (H1 & H2 & H3 & _); try reflexivity.
  destruct (skip_clamps
              (run [Metadata (Fin 200); Emit loadedmetadata; Playback (Fin 197);
                    Playback (Fin 4)] (mount "a.mp3"))
              (set_currentTime (Fin 4) (set_duration (Fin 200)
                 (fold_left (fun a r => addEventListener (fst r) (snd r) a)
                    (subscription 0) (set_volume (Fin (75 / 100)) new_audio))))
              4 200 eq_refl)
    as (_ & _ & _ & H4); try reflexivity.
  exact (conj H1 (conj H2 (conj (H3 eq_refl) (H4 eq_refl)))).
Defined.

(** C5: a click at offset [clientX - rect_left] in a track of width [w]
    sets the element's position and the position cell to
    (offset / w) * d when the duration cell holds a non-zero [d]; when the
    duration cell holds 0 or [NaN] the click changes nothing. *)
Theorem seek_by_click (W : World) (audio : Audio) :
  mounted W = true ->
  audioRef W = Some audio ->
  (forall clientX rect_left w d : Q,
     duration (widget W) = Fin d -> ~ d == 0 -> 0 < w ->
     let x := clientX - rect_left in
     let W' := step (ClickProgress (Fin clientX) (Fin rect_left) (Fin w)) W in
     position W' = Some (Fin (x / w * d)) /\
     currentTime (widget W') = Fin (x / w * d)) /\
  (forall clientX rect_left rect_width : num,
     (duration (widget W) = NaN \/
      exists d, duration (widget W) = Fin d /\ d == 0) ->
     step (ClickProgress clientX rect_left rect_width) W = W).
Proof.
  intros Hm Ha; split.
  - intros clientX rect_left w d Hd Hnz Hw x W'.
    assert (E : W' = handleProgressClick (Fin clientX) (Fin rect_left) (Fin w) W).
    { unfold W'. rewrite step_mounted; simpl; rewrite Hm; auto.
      - apply commit_idle; unfold handleProgressClick;
          destruct (audioRef W); try reflexivity;
          destruct (negb _); reflexivity.
      - unfold handleProgressClick; rewrite Ha.
        destruct (negb _); auto. }
    rewrite E. unfold handleProgressClick, position.
    rewrite Ha, Hd; simpl.
    rewrite (Qzero_false d Hnz); simpl.
    rewrite Ha; simpl.
    rewrite (Qzero_false w) by lra.
    split; reflexivity.
  - intros clientX rect_left rect_width Hd.
    assert (Hf : truthy (duration (widget W)) = false).
    { destruct Hd as [-> | (d & -> & Hz)]; auto.
      simpl. apply Qzero_iff in Hz. rewrite Hz; reflexivity. }
    rewrite step_mounted; simpl; rewrite Hm; unfold handleProgressClick;
      rewrite Ha, Hf; simpl; auto.
    apply commit_idle; reflexivity.
Qed.

Lemma seek_by_click_witness :
  let W := run [Metadata (Fin 200); Emit loadedmetadata] (mount "a.mp3") in
  let W' := step (ClickProgress (Fin 150) (Fin 100) (Fin 200)) W in
  (position W' = Some (Fin ((150 - 100) / 200 * 200)) /\
   currentTime (widget W') = Fin ((150 - 100) / 200 * 200)) /\
  step (ClickProgress (Fin 150) (Fin 100) (Fin 200)) (mount "a.mp3") = mount "a.mp3".
Proof.
  split.
  - refine (proj1 (seek_by_click
             (run [Metadata (Fin 200); Emit loadedmetadata] (mount "a.mp3"))
             _ eq_refl eq_refl) 150 100 200 200 eq_refl _ eq_refl).
    intros H; discriminate H.
  - refine (proj2 (seek_by_click (mount "a.mp3") _ eq_refl eq_refl)
              (Fin 150) (Fin 100) (Fin 200) _).
    right; exists 0; split; reflexivity.
Defined.

(** ** Volume *)

Lemma slider_values_spec (v : Z) : In v slider_values <-> (0 <= v <= 100)%Z.
Proof.
  unfold slider_values; rewrite in_map_iff; split.
  - intros (n & <- & Hn). apply in_seq in Hn. lia.
  - intros H. exists (Z.to_nat v). rewrite in_seq. lia.
Qed.

Lemma parseInt_slider_values :
  forallb
    (fun v =>
       match parseInt (decimal v) with
       | Fin q => (Qnum q =? v)%Z && (Qden q =? 1)%positive
       | _ => false
       end) slider_values = true.
Proof. vm_compute; reflexivity. Qed.

Lemma parseInt_decimal (v : Z) :
  (0 <= v <= 100)%Z -> parseInt (decimal v) = Fin (inject_Z v).
Proof.
  intros H. apply slider_values_spec in H.
  pose proof parseInt_slider_values as A.
  rewrite forallb_forall in A. specialize (A v H).
  destruct (parseInt (decimal v)) as [| |[n d]]; try discriminate.
  apply andb_prop in A as [A1 A2]; cbn [Qnum Qden] in A1, A2.
  apply Z.eqb_eq in A1. apply Pos.eqb_eq in A2. subst. reflexivity.
Qed.

Lemma slider_value_spec (value : string) :
  slider_value value = true ->
  exists v, (0 <= v <= 100)%Z /\ value = decimal v.
Proof.
  unfold slider_value; rewrite existsb_exists.
  intros (v & Hv & E). apply String.eqb_eq in E. apply slider_values_spec in Hv.
  exists v; auto.
Qed.

Lemma inject_Z_same (u v : Z) :
  same (Fin (inject_Z u)) (Fin (inject_Z v)) = true -> u = v.
Proof.
  simpl; intros H. apply Qeq_bool_iff in H.
  unfold Qeq in H; simpl in H. lia.
Qed.

Lemma toString_integer (digits : Q -> string) (v : Z) :
  (Z.abs v < 2 ^ 53)%Z ->
  Number_toString digits (Fin (inject_Z v)) = decimal v.
Proof.
  intros H; unfold Number_toString, integral.
  rewrite Qfloor_Z.
  replace (Qeq_bool _ _) with true by (symmetry; apply Qeq_bool_iff; reflexivity).
  apply Z.ltb_lt in H; rewrite H; reflexivity.
Qed.

Lemma levels_playback (W : World) : levels (playback W) = levels W.
Proof. world W; unfold playback; simpl; destruct (isPlaying w); reflexivity. Qed.

Lemma levels_resubscribe (W : World) : levels (subscribe (run_cleanup W)) = levels W.
Proof. world W; unfold run_cleanup; simpl; destruct cl; reflexivity. Qed.

Lemma levels_invoke (f : callback) (W : World) : levels (invoke f W) = levels W.
Proof. world W; destruct f; reflexivity. Qed.

Lemma levels_dispatch (ty : media_event) (W : World) :
  levels (dispatch ty W) = levels W.
Proof.
  unfold dispatch. destruct (audioRef W) as [a|]; auto.
  generalize (a_listeners a); intros l; revert W.
  induction l as [|r l IH]; intros W; simpl; auto.
  rewrite IH. destruct (media_event_eqb _ _); auto using levels_invoke.
Qed.

Lemma levels_react (e : event) (W : World) :
  (forall value, e <> ChangeVolume value) -> levels (react e W) = levels W.
Proof.
  intros He. destruct e; simpl; auto using levels_dispatch;
    try (exfalso; eapply He; reflexivity);
    world W; simpl;
    unfold handlePlayPause, handleProgressClick, settle, unmount, run_cleanup; simpl;
    try destruct mt; try reflexivity;
    try destruct (isLoading w); try destruct (truthy (duration w));
    try destruct pd; try destruct cl; reflexivity.
Qed.

(** After a commit the element's volume is the cell's over 100. *)
Lemma levels_commit (prev W : World) (u v : Z) :
  volume (widget prev) = Fin (inject_Z u) ->
  levels W = (Fin (inject_Z v), Some (Fin (inject_Z u / 100))) ->
  levels (commit prev W) = level v.
Proof.
  intros Hu Hl; unfold commit.
  set (W1 := if String.eqb _ _ then W else subscribe (run_cleanup W)).
  assert (H1 : levels W1 = levels W)
    by (unfold W1; destruct (String.eqb _ _); auto using levels_resubscribe).
  clearbody W1.
  set (W2 := if Bool.eqb _ _ then W1 else playback W1).
  assert (H2 : levels W2 = levels W)
    by (unfold W2; destruct (Bool.eqb _ _); rewrite ?levels_playback; auto).
  clearbody W2.
  rewrite Hl in H2. unfold levels in H2. injection H2 as Hv Ha.
  rewrite Hu, Hv.
  destruct (same _ _) eqn:E.
  - apply inject_Z_same in E; subst u.
    unfold levels, level; rewrite Hv, Ha; reflexivity.
  - unfold levels, level, propagate_volume, with_audio; simpl.
    destruct (audioRef W2); [|discriminate]; simpl.
    rewrite Hv; reflexivity.
Qed.

Lemma levels_change (v u : Z) (W : World) :
  (0 <= v <= 100)%Z -> mounted W = true -> levels W = level u ->
  levels (step (ChangeVolume (decimal v)) W) = level v.
Proof.
  intros Hv Hm Hl.
  rewrite step_mounted; simpl; rewrite Hm; auto.
  apply (levels_commit _ _ u v).
  - unfold levels, level in Hl; congruence.
  - unfold levels, level, handleVolumeChange in *; simpl.
    rewrite parseInt_decimal by assumption. congruence.
Qed.

Lemma levels_step (e : event) (W : World) (u : Z) :
  (0 <= u <= 100)%Z -> levels W = level u -> well_formed e = true ->
  exists v, (0 <= v <= 100)%Z /\ levels (step e W) = level v.
Proof.
  intros Hu Hl He.
  assert (Hw : volume (widget W) = Fin (inject_Z u))
    by (unfold levels, level in Hl; congruence).
  destruct e;
    try (exists u; split; [assumption|];
         unfold step;
         match goal with |- context [react ?e W] =>
           assert (Hr : levels (react e W) = levels W)
             by (apply levels_react; discriminate)
         end;
         destruct (mounted _); [|congruence];
         apply (levels_commit _ _ u u); unfold level in Hl; congruence).
  simpl in He. apply slider_value_spec in He as (v & Hv & ->).
  destruct (mounted W) eqn:Hm.
  - exists v; split; [assumption|]. apply (levels_change v u); assumption.
  - exists u; split; [assumption|].
    unfold step; simpl; rewrite Hm, Hm; assumption.
Qed.

Lemma levels_run (trace : list event) (W : World) (u : Z) :
  (0 <= u <= 100)%Z -> levels W = level u ->
  forallb well_formed trace = true ->
  exists v, (0 <= v <= 100)%Z /\ levels (run trace W) = level v.
Proof.
  revert W u; induction trace as [|e trace IH]; intros W u Hu Hl Ht; simpl in *.
  - exists u; auto.
  - apply andb_prop in Ht as [He Ht].
    destruct (levels_step e W u Hu Hl He) as (v & Hv & Hl').
    apply (IH _ v); assumption.
Qed.

(** C6: on an instance reached from a mount through events whose slider
    values the control can report, the volume cell holds an integer of
    [0, 100]; setting the slider to [v] of that range makes the cell and
    the label [v] and the element's volume v / 100. *)
Theorem volume_slider (digits : Q -> string) (src : string)
    (trace : list event) (v : Z) :
  forallb well_formed trace = true ->
  (0 <= v <= 100)%Z ->
  let W := run trace (mount src) in
  (exists u, (0 <= u <= 100)%Z /\ volume (widget W) = Fin (inject_Z u)) /\
  (mounted W = true ->
   let W' := step (ChangeVolume (decimal v)) W in
   volume (widget W') = Fin (inject_Z v) /\
   volume_label digits (widget W') = decimal v /\
   option_map a_volume (audioRef W') = Some (Fin (inject_Z v / 100))).
Proof.
  intros Ht Hv W.
  destruct (levels_run trace (mount src) 75) as (u & Hu & Hl);
    [lia | reflexivity | assumption |].
  fold W in Hl. split.
  - exists u; split; [assumption|]. unfold levels, level in Hl; congruence.
  - intros Hm W'.
    pose proof (levels_change v u W Hv Hm Hl) as E. fold W' in E.
    unfold levels, level in E. injection E as E1 E2.
    split; [assumption|]. split; [|assumption].
    unfold volume_label; rewrite E1. apply toString_integer.
    apply Z.abs_lt. split; [lia|]. apply Z.le_lt_trans with 100%Z; [lia|reflexivity].
Qed.

Lemma volume_slider_witness :
  let W := run [ChangeVolume "30"; ClickPlayPause] (mount "a.mp3") in
  (exists u, (0 <= u <= 100)%Z /\ volume (widget W) = Fin (inject_Z u)) /\
  (let W' := step (ChangeVolume (decimal 42)) W in
   volume (widget W') = Fin (inject_Z 42) /\
   volume_label (fun _ => "") (widget W') = decimal 42 /\
   option_map a_volume (audioRef W') = Some (Fin (inject_Z 42 / 100))).
Proof.
  destruct (volume_slider (fun _ => "") "a.mp3" [ChangeVolume "30"; ClickPlayPause] 42)
    as (H1 & H2).
  - reflexivity.
  - lia.
  - exact (conj H1 (H2 eq_refl)).
Defined.

(** ** Time formatting *)

Lemma Qfloor_div60 (q : Q) : Qfloor (q / 60) = (Qfloor q / 60)%Z.
Proof.
  destruct q as [n d]; unfold Qfloor, Qdiv, Qmult, Qinv; simpl.
  rewrite Z.mul_1_r, Pos2Z.inj_mul, Z.div_div by lia. reflexivity.
Qed.

Lemma Qneg_div60 (q : Q) : 0 <= q -> Qneg (q / 60) = false.
Proof.
  destruct q as [n d]; unfold Qle, Qneg; simpl; intros H.
  apply Z.ltb_ge. lia.
Qed.

Lemma Qfloor_minus_Z (q : Q) (k : Z) :
  Qfloor (q - 60 * inject_Z k) = (Qfloor q - 60 * k)%Z.
Proof.
  destruct q as [n d]; unfold Qfloor, Qminus, Qplus, Qopp, Qmult, inject_Z.
  cbn [Qnum Qden]. rewrite !Pos.mul_1_r.
  change (Z.pos 1) with 1%Z. rewrite Z.mul_1_r.
  rewrite Z.div_add by lia. lia.
Qed.

(** The seconds of [formatTime] on a non-negative value. *)
Lemma seconds_of (q : Q) :
  0 <= q ->
  Math_floor (rem (Fin q) (Fin 60)) = Fin (inject_Z (Qfloor q mod 60)).
Proof.
  intros H. unfold rem. change (Qzero 60) with false. cbv iota.
  unfold Math_floor, Qtrunc. rewrite (Qneg_div60 q H).
  rewrite Qfloor_minus_Z, Qfloor_div60, Z.mod_eq by lia. reflexivity.
Qed.





(** What the code writes there, and at the three inputs the
    specification names, evaluated on doubles. *)
Remark formatTime_on_doubles (digits : spec_float -> string) :
  Double.formatTime digits (Double.of_Z 72000000000000176) = "1200000000000003:56" /\
  Double.formatTime digits S754_nan = "0:00" /\
  Double.formatTime digits (Double.of_Z 0) = "0:00" /\
  Double.formatTime digits (Double.of_Z 65) = "1:05".
Proof. repeat split; vm_compute; reflexivity. Qed.



(** An unbounded duration, as a live stream has it, is not a finite
    number of seconds: it comes out as it is written, with no digits for
    the seconds. *)
Remark formatTime_unbounded (digits : Q -> string) :
  formatTime digits (Inf false) = "Infinity:NaN".
Proof. reflexivity. Qed.

(** ** After the unmount *)

Lemma widget_react_released (e : event) (W : World) :
  released W -> widget (react e W) = widget W.
Proof.
  intros (Hm & _ & a & Ha & Hl).
  destruct e; simpl; rewrite ?Hm; auto.
  - unfold dispatch; rewrite Ha, Hl; reflexivity.
  - unfold settle; destruct (pending W); reflexivity.
Qed.

Lemma mounted_react_released (e : event) (W : World) :
  released W -> mounted (react e W) = false.
Proof.
  intros (Hm & _).
  destruct e; simpl; rewrite ?Hm; auto.
  - pose proof (rest_dispatch ty W) as E; unfold rest in E.
    injection E; intros; congruence.
  - unfold settle; destruct (pending W); assumption.
Qed.

Lemma widget_step_released (e : event) (W : World) :
  released W -> widget (step e W) = widget W.
Proof.
  intros H. unfold step.
  rewrite (mounted_react_released e W H).
  apply widget_react_released, H.
Qed.

Lemma released_run (trace : list event) (W : World) :
  released W -> released (run trace W) /\ widget (run trace W) = widget W.
Proof.
  revert W; induction trace as [|e trace IH]; intros W H; simpl; auto.
  destruct (IH _ (released_step e W H)) as (H1 & H2).
  split; [assumption|]. rewrite H2. apply widget_step_released, H.
Qed.

(** X2: Once the component is unmounted nothing reaches its state: whatever
    the element fires, whatever settles, the cells stay as the unmount
    left them, and no listener is on the element. *)
Theorem unmounted_is_inert (W : World) (trace : list event) :
  reachable W -> mounted W = true ->
  let W' := run (Unmount :: trace) W in
  widget W' = widget W /\
  mounted W' = false /\
  option_map a_listeners (audioRef W') = Some [].
Proof.
  intros Hr Hm W'.
  pose proof (released_unmount W (reachable_mounted W Hr Hm)) as Hu.
  destruct (released_run trace _ Hu) as ((Hm' & _ & a & Ha & Hl) & Hw).
  unfold W'; simpl. fold (run trace (step Unmount W)).
  split.
  - rewrite Hw. unfold step; simpl; rewrite Hm; simpl.
    apply widget_run_cleanup.
  - split; [assumption|]. rewrite Ha; simpl; rewrite Hl; reflexivity.
Qed.

Lemma unmounted_is_inert_witness :
  let W := run [ClickPlayPause] (mount "a.mp3") in
  let W' := run [Unmount; Emit ended; Emit loadstart; ClickLike; SwapSrc "b.mp3"] W in
  widget W' = widget W /\
  mounted W' = false /\
  option_map a_listeners (audioRef W') = Some [].
Proof.
  apply (unmounted_is_inert (run [ClickPlayPause] (mount "a.mp3"))
           [Emit ended; Emit loadstart; ClickLike; SwapSrc "b.mp3"]).
  - exists "a.mp3", [ClickPlayPause]; reflexivity.
  - reflexivity.
Defined.

(** ** The element follows is-playing *)

Lemma paused_react (e : event) (W : World) :
  option_map a_paused (audioRef (react e W)) = option_map a_paused (audioRef W).
Proof.
  destruct e; simpl.
  all: try (pose proof (rest_dispatch ty W) as E; unfold rest in E;
            injection E; intros; congruence).
  all: world W; simpl;
    unfold handlePlayPause, handleProgressClick, settle, unmount, run_cleanup; simpl;
    try destruct mt; try reflexivity;
    try destruct (isLoading w); try destruct (truthy (duration w));
    try destruct pd; try destruct cl; reflexivity.
Qed.

Lemma paused_resubscribe (W : World) :
  option_map a_paused (audioRef (subscribe (run_cleanup W)))
  = option_map a_paused (audioRef W).
Proof. world W; unfold run_cleanup; simpl; destruct cl; reflexivity. Qed.

Lemma in_step_commit (prev W : World) :
  option_map a_paused (audioRef W) = Some (negb (isPlaying (widget prev))) ->
  in_step (commit prev W).
Proof.
  intros H; unfold commit.
  set (W1 := if String.eqb _ _ then W else subscribe (run_cleanup W)).
  assert (H1 : option_map a_paused (audioRef W1) = Some (negb (isPlaying (widget prev)))
               /\ widget W1 = widget W).
  { unfold W1; destruct (String.eqb _ _); auto.
    rewrite paused_resubscribe, widget_subscribe, widget_run_cleanup; auto. }
  clearbody W1. destruct H1 as [H1 E1].
  set (W2 := if Bool.eqb _ _ then W1 else playback W1).
  assert (H2 : in_step W2).
  { unfold W2, in_step. destruct (Bool.eqb _ _) eqn:E.
    - apply Bool.eqb_prop in E. congruence.
    - rewrite widget_playback. clear E W2. unfold playback.
      world W1; simpl in *; [|discriminate].
      destruct (isPlaying w); reflexivity. }
  clearbody W2.
  destruct (same _ _); auto.
  revert H2; unfold in_step; world W2; simpl; auto.
Qed.

Lemma in_step_step (e : event) (W : World) :
  wired W -> in_step W -> in_step (step e W).
Proof.
  intros Hw Hs. unfold step.
  destruct (mounted (react e W)) eqn:Hm.
  - apply in_step_commit. rewrite paused_react. exact Hs.
  - unfold in_step. rewrite paused_react.
    replace (widget (react e W)) with (widget W); [exact Hs|].
    destruct Hw as [Hw|Hw]; [|symmetry; apply widget_react_released, Hw].
    destruct (is_unmount e) eqn:He.
    + destruct e; try discriminate. simpl. destruct (mounted W); auto.
      simpl. symmetry. apply widget_run_cleanup.
    + pose proof (wiring_react e W He) as E. unfold wiring in E.
      destruct Hw as [Hw _]. injection E; intros; congruence.
Qed.

Lemma wired_step (e : event) (W : World) : wired W -> wired (step e W).
Proof. intros H. apply (wired_run [e] W H). Qed.

Lemma in_step_run (trace : list event) (W : World) :
  wired W -> in_step W -> in_step (run trace W).
Proof.
  revert W; induction trace as [|e trace IH]; intros W Hw Hs; simpl; auto.
  apply IH; auto using wired_step, in_step_step.
Qed.

(** X1: In every world reached from a mount the last of [play] and [pause]
    called on the element agrees with the is-playing cell: the element is
    left paused exactly when is-playing is false. *)
Theorem element_follows_isPlaying (W : World) :
  reachable W ->
  exists audio, audioRef W = Some audio /\
                a_paused audio = negb (isPlaying (widget W)).
Proof.
  intros (src & trace & ->).
  assert (H : in_step (run trace (mount src))).
  { apply in_step_run; [left; apply subscribed_mount | reflexivity]. }
  unfold in_step in H.
  destruct (audioRef (run trace (mount src))) as [a|]; [|discriminate].
  exists a; split; [reflexivity|]. simpl in H. congruence.
Qed.

Lemma element_follows_isPlaying_witness :
  let W := run [ClickPlayPause; SwapSrc "b.mp3"; Emit ended; ClickPlayPause]
             (mount "a.mp3") in
  exists audio, audioRef W = Some audio /\
                a_paused audio = negb (isPlaying (widget W)).
Proof.
  apply (element_follows_isPlaying
           (run [ClickPlayPause; SwapSrc "b.mp3"; Emit ended; ClickPlayPause]
              (mount "a.mp3"))).
  exists "a.mp3", [ClickPlayPause; SwapSrc "b.mp3"; Emit ended; ClickPlayPause].
  reflexivity.
Defined.

(** ** Media events *)

Lemma widget_emit_subscribed (ty : media_event) (W : World) :
  subscribed W ->
  widget (step (Emit ty) W) = widget (invoke (handler_for ty) W).
Proof.
  intros Hs.
  assert (Hd : mounted (dispatch ty W) = true).
  { pose proof (rest_dispatch ty W) as E; unfold rest in E.
    destruct Hs as [Hm _]. injection E; intros; congruence. }
  rewrite step_mounted by exact Hd. rewrite widget_commit.
  simpl. rewrite (dispatch_subscribed _ _ Hs). reflexivity.
Qed.

(** X3: On a mounted instance each media event is handled once, by its own
    callback, and writes one cell: [timeupdate] copies the element's
    position, [loadedmetadata] its duration, [ended] clears is-playing,
    [loadstart] sets and [canplay] clears is-loading. *)
Theorem media_event_writes_one_cell (W : World) (ty : media_event) :
  reachable W -> mounted W = true ->
  exists audio,
    audioRef W = Some audio /\
    widget (step (Emit ty) W)
    = match ty with
      | timeupdate => setCurrentTime (a_currentTime audio) (widget W)
      | loadedmetadata => setDuration (a_duration audio) (widget W)
      | ended => setIsPlaying false (widget W)
      | loadstart => setIsLoading true (widget W)
      | canplay => setIsLoading false (widget W)
      end.
Proof.
  intros Hr Hm.
  pose proof (reachable_mounted W Hr Hm) as Hs.
  pose proof Hs as [_ (a & r & Ha & _ & _)].
  exists a; split; [assumption|].
  rewrite (widget_emit_subscribed _ _ Hs).
  destruct ty; simpl; rewrite ?Ha; reflexivity.
Qed.

Lemma media_event_writes_one_cell_witness :
  let W := run [Metadata (Fin 200); SwapSrc "b.mp3"; Playback (Fin 12)] (mount "a.mp3") in
  exists audio,
    audioRef W = Some audio /\
    widget (step (Emit timeupdate) W)
    = setCurrentTime (a_currentTime audio) (widget W).
Proof.
  apply (media_event_writes_one_cell
           (run [Metadata (Fin 200); SwapSrc "b.mp3"; Playback (Fin 12)] (mount "a.mp3"))
           timeupdate).
  - exists "a.mp3", [Metadata (Fin 200); SwapSrc "b.mp3"; Playback (Fin 12)].
    reflexivity.
  - reflexivity.
Defined.

(** ** Skipping and the displayed position *)

(** X4: The skip buttons move the element only: the position cell, and every
    other cell, keeps its value until the element's next [timeupdate],
    which brings the cell to where the skip went. *)
Theorem skip_shows_on_timeupdate (W : World) (audio : Audio) (t : Q) :
  reachable W -> mounted W = true ->
  audioRef W = Some audio -> a_currentTime audio = Fin t ->
  widget (step ClickSkipBack W) = widget W /\
  widget (step ClickSkipForward W) = widget W /\
  currentTime (widget (run [ClickSkipBack; Emit timeupdate] W))
  = Fin (Qmax 0 (t - 10)) /\
  currentTime (widget (run [ClickSkipForward; Emit timeupdate] W))
  = Math_min (duration (widget W)) (Fin (t + 10)).
Proof.
  intros Hr Hm Ha Ht.
  pose proof (reachable_mounted W Hr Hm) as Hs.
  assert (Hb : subscribed (step ClickSkipBack W)) by (apply subscribed_step; auto).
  assert (Hf : subscribed (step ClickSkipForward W)) by (apply subscribed_step; auto).
  rewrite step_skip_back in * by assumption.
  rewrite step_skip_forward in * by assumption.
  split; [reflexivity | split; [reflexivity|]].
  unfold run; simpl fold_left.
  rewrite step_skip_back, step_skip_forward by assumption.
  split.
  - rewrite (widget_emit_subscribed _ _ Hb).
    unfold handleSkipBack, with_audio; simpl.
    rewrite Ha; simpl. rewrite Ht; reflexivity.
  - rewrite (widget_emit_subscribed _ _ Hf).
    unfold handleSkipForward, with_audio; simpl.
    rewrite Ha; simpl. rewrite Ht; reflexivity.
Qed.

Lemma skip_shows_on_timeupdate_witness :
  let W := run [Metadata (Fin 200); Emit loadedmetadata; Playback (Fin 197);
                Emit timeupdate] (mount "a.mp3") in
  currentTime (widget (step ClickSkipForward W)) = Fin 197 /\
  currentTime (widget (run [ClickSkipForward; Emit timeupdate] W)) = Fin 200 /\
  currentTime (widget (run [ClickSkipBack; Emit timeupdate] W)) = Fin (Qmax 0 (197 - 10)).
Proof.
  destruct (skip_shows_on_timeupdate
              (run [Metadata (Fin 200); Emit loadedmetadata; Playback (Fin 197);
                    Emit timeupdate] (mount "a.mp3"))
              (set_currentTime (Fin 197) (set_duration (Fin 200)
                 (fold_left (fun a r => addEventListener (fst r) (snd r) a)
                    (subscription 0) (set_volume (Fin (75 / 100)) new_audio))))
              197)
    as (_ & H2 & H3 & H4).
  - exists "a.mp3", [Metadata (Fin 200); Emit loadedmetadata; Playback (Fin 197);
                     Emit timeupdate]; reflexivity.
  - reflexivity.
  - reflexivity.
  - reflexivity.
  - split; [rewrite H2; reflexivity|]. split; [rewrite H4; reflexivity | exact H3].
Defined.

(** ** Changing the track *)

Lemma step_swap (W : World) (src : string) :
  mounted W = true -> String.eqb (audioSrc W) src = false ->
  step (SwapSrc src) W = subscribe (run_cleanup (swap src W)).
Proof.
  intros Hm Hsrc.
  assert (Hre : react (SwapSrc src) W = swap src W)
    by (simpl; rewrite Hm; reflexivity).
  rewrite step_mounted, Hre by (rewrite Hre; exact Hm).
  unfold commit. cbn [swap audioSrc]. rewrite Hsrc.
  rewrite widget_subscribe, widget_run_cleanup; cbn [swap widget].
  rewrite Bool.eqb_reflx, widget_subscribe, widget_run_cleanup; cbn [swap widget].
  rewrite same_refl; reflexivity.
Qed.

Lemma step_swap_same (W : World) : step (SwapSrc (audioSrc W)) W = W.
Proof.
  unfold step; simpl. destruct (mounted W) eqn:Hm.
  - replace (swap (audioSrc W) W) with W by (destruct W; reflexivity).
    rewrite Hm. apply commit_idle; reflexivity.
  - rewrite Hm; reflexivity.
Qed.

(** X5: Passing the [audioSrc] the component already has changes nothing.
    Passing another one re-subscribes and does nothing else: the six
    cells keep the values they had for the previous track, the
    component assigns nothing to the element and calls neither [play]
    nor [pause], and no promise is created. *)
Theorem track_swap_keeps_state (W : World) (src : string) :
  (String.eqb (audioSrc W) src = true -> step (SwapSrc src) W = W) /\
  (mounted W = true ->
   widget (step (SwapSrc src) W) = widget W /\
   properties (step (SwapSrc src) W) = properties W /\
   pending (step (SwapSrc src) W) = pending W /\
   console (step (SwapSrc src) W) = console W /\
   audioSrc (step (SwapSrc src) W) = src).
Proof.
  split.
  - intros E. apply String.eqb_eq in E. subst src. apply step_swap_same.
  - intros Hm. destruct (String.eqb (audioSrc W) src) eqn:E.
    + apply String.eqb_eq in E. subst src. rewrite step_swap_same. auto.
    + rewrite step_swap by assumption.
      world W; unfold run_cleanup; simpl; destruct cl; simpl; auto.
Qed.

Lemma track_swap_keeps_state_witness :
  let W := run [Metadata (Fin 200); Emit loadedmetadata; ClickPlayPause;
                Playback (Fin 42); Emit timeupdate] (mount "a.mp3") in
  step (SwapSrc "a.mp3") W = W /\
  widget (step (SwapSrc "b.mp3") W) = widget W /\
  properties (step (SwapSrc "b.mp3") W) = properties W /\
  pending (step (SwapSrc "b.mp3") W) = pending W /\
  console (step (SwapSrc "b.mp3") W) = console W /\
  audioSrc (step (SwapSrc "b.mp3") W) = "b.mp3".
Proof.
  split.
  - apply (proj1 (track_swap_keeps_state
                    (run [Metadata (Fin 200); Emit loadedmetadata; ClickPlayPause;
                          Playback (Fin 42); Emit timeupdate] (mount "a.mp3"))
                    "a.mp3")).
    reflexivity.
  - apply (proj2 (track_swap_keeps_state
                    (run [Metadata (Fin 200); Emit loadedmetadata; ClickPlayPause;
                          Playback (Fin 42); Emit timeupdate] (mount "a.mp3"))
                    "b.mp3")).
    reflexivity.
Defined.

(** ** The like button *)

Lemma step_like (W : World) : mounted W = true -> step ClickLike W = handleLike W.
Proof.
  intros Hm. rewrite step_mounted; simpl; rewrite Hm; auto.
  apply commit_idle; reflexivity.
Qed.

(** X6: The like button negates is-liked and touches nothing else, whether a
    load is in progress or not; a second click restores the instance as
    it was. *)
Theorem like_toggle (W : World) :
  mounted W = true ->
  widget (step ClickLike W) = setIsLiked (negb (isLiked (widget W))) (widget W) /\
  rest (step ClickLike W) = rest W /\
  run [ClickLike; ClickLike] W = W.
Proof.
  intros Hm. unfold run; simpl fold_left.
  rewrite (step_like W Hm), (step_like (handleLike W)) by exact Hm.
  repeat split.
  destruct W as [[p c d v l g] s a r k n o m]; unfold handleLike, with_widget, setIsLiked;
    simpl. rewrite Bool.negb_involutive. reflexivity.
Qed.

Lemma like_toggle_witness :
  let W := run [Emit loadstart] (mount "a.mp3") in
  isLoading (widget W) = true /\
  widget (step ClickLike W) = setIsLiked (negb (isLiked (widget W))) (widget W) /\
  rest (step ClickLike W) = rest W /\
  run [ClickLike; ClickLike] W = W.
Proof.
  split; [reflexivity|].
  apply (like_toggle (run [Emit loadstart] (mount "a.mp3"))).
  reflexivity.
Defined.

(** ** Two toggles *)

(** X7: On a ready instance two clicks on play/pause bring the cells back;
    one of the two clicks called [play], so exactly one more promise is
    left to settle, and the element is left paused or not as it was told
    before the clicks. *)
Theorem toggle_twice (W : World) (element : Audio) :
  mounted W = true -> audioRef W = Some element ->
  isLoading (widget W) = false ->
  let W2 := run [ClickPlayPause; ClickPlayPause] W in
  widget W2 = widget W /\
  pending W2 = S (pending W) /\
  option_map a_paused (audioRef W2) = Some (negb (isPlaying (widget W))).
Proof.
  intros Hm Ha Hl.
  destruct W as [[p c d v l g] s a r k n o m]; simpl in *; subst.
  unfold run, step; simpl. unfold handlePlayPause; simpl.
  unfold commit; simpl. rewrite String.eqb_refl.
  destruct p; simpl; rewrite ?String.eqb_refl, ?same_refl; simpl;
    rewrite ?String.eqb_refl, ?same_refl; simpl; auto.
Qed.

Lemma toggle_twice_witness :
  let W := step ClickPlayPause (mount "a.mp3") in
  let W2 := run [ClickPlayPause; ClickPlayPause] W in
  widget W2 = widget W /\
  pending W2 = S (pending W) /\
  option_map a_paused (audioRef W2) = Some (negb (isPlaying (widget W))).
Proof.
  apply (toggle_twice (step ClickPlayPause (mount "a.mp3"))
           (set_paused false
              (fold_left (fun a r => addEventListener (fst r) (snd r) a)
                 (subscription 0) (set_volume (Fin (75 / 100)) new_audio))));
    reflexivity.
Defined.

(** ** The console *)

Lemma console_commit (prev W : World) : console (commit prev W) = console W.
Proof.
  unfold commit.
  assert (Hs : forall V, console (subscribe (run_cleanup V)) = console V).
  { intros V; world V; unfold run_cleanup; simpl; destruct cl; reflexivity. }
  assert (Hp : forall V, console (playback V) = console V).
  { intros V; world V; unfold playback; simpl; destruct (isPlaying w); reflexivity. }
  destruct (String.eqb _ _);
    repeat match goal with |- context [if ?b then _ else _] => destruct b end;
    unfold propagate_volume, with_audio; simpl; rewrite ?Hp, ?Hs; reflexivity.
Qed.

Lemma console_react (e : event) (W : World) :
  quiet e = true -> console (react e W) = console W.
Proof.
  intros He. destruct e; simpl.
  all: try (pose proof (rest_dispatch ty W) as E; unfold rest in E;
            injection E; intros; congruence).
  all: try (destruct o; [|discriminate]).
  all: world W; simpl;
    unfold handlePlayPause, handleProgressClick, settle, unmount, run_cleanup; simpl;
    try destruct mt; try reflexivity;
    try destruct (isLoading w); try destruct (truthy (duration w));
    try destruct pd; try destruct cl; reflexivity.
Qed.

Lemma console_step (e : event) (W : World) :
  quiet e = true -> console (step e W) = console W.
Proof.
  intros He. unfold step.
  destruct (mounted (react e W)); rewrite ?console_commit; apply console_react, He.
Qed.

(** X8: The component writes to the console only when a promise of [play] is
    rejected: an execution without a rejection leaves the console as it
    was, and a rejection that finds a promise adds its reason and nothing
    more. *)
Theorem console_only_rejections (trace : list event) (W : World) (reason : string) :
  forallb quiet trace = true ->
  console (run trace W) = console W /\
  (pending (run trace W) <> 0%nat ->
   console (run (trace ++ [SettlePlay (Rejected reason)]) W)
   = (console W ++ [reason])%list).
Proof.
  intros Ht.
  assert (H : console (run trace W) = console W).
  { revert W; induction trace as [|e trace IH]; intros W; simpl in *; auto.
    apply andb_prop in Ht as [He Ht].
    rewrite IH by assumption. apply console_step, He. }
  split; [assumption|].
  intros Hp. unfold run. rewrite fold_left_app. fold (run trace W). simpl.
  unfold step; simpl.
  assert (E : console (settle (Rejected reason) (run trace W))
              = (console (run trace W) ++ [reason])%list).
  { unfold settle. destruct (pending (run trace W)); [congruence | reflexivity]. }
  destruct (mounted _); rewrite ?console_commit, E, H; reflexivity.
Qed.

Lemma console_only_rejections_witness :
  let trace := [ClickPlayPause; Emit ended; SettlePlay Resolved; ClickPlayPause] in
  console (run trace (mount "a.mp3")) = [] /\
  console (run (trace ++ [SettlePlay (Rejected "NotAllowedError")]) (mount "a.mp3"))
  = ["NotAllowedError"].
Proof.
  destruct (console_only_rejections
              [ClickPlayPause; Emit ended; SettlePlay Resolved; ClickPlayPause]
              (mount "a.mp3") "NotAllowedError" eq_refl) as (H1 & H2).
  split; [exact H1|]. apply H2. vm_compute; discriminate.
Defined.

(** ** Bounds of the position *)

Lemma position_skip_back (W : World) (audio : Audio) :
  mounted W = true -> audioRef W = Some audio ->
  position (step ClickSkipBack W)
  = Some (Math_max (Fin 0) (sub (a_currentTime audio) (Fin 10))).
Proof.
  intros Hm Ha. rewrite step_skip_back by assumption.
  unfold position, handleSkipBack, with_audio; simpl. rewrite Ha; reflexivity.
Qed.

Lemma position_skip_forward (W : World) (audio : Audio) :
  mounted W = true -> audioRef W = Some audio ->
  position (step ClickSkipForward W)
  = Some (Math_min (duration (widget W)) (add (a_currentTime audio) (Fin 10))).
Proof.
  intros Hm Ha. rewrite step_skip_forward by assumption.
  unfold position, handleSkipForward, with_audio; simpl. rewrite Ha; reflexivity.
Qed.

(** X9: With the element at a position [t] of [0, d], [d] being the duration
    cell, both skips leave it in [0, d]: skip-back goes to a position of
    [0, t], ten seconds back when there is room, and skip-forward to one
    of [t, d], ten seconds on when there is room. *)
Theorem skip_stays_in_range (W : World) (audio : Audio) (t d : Q) :
  mounted W = true -> audioRef W = Some audio ->
  a_currentTime audio = Fin t -> duration (widget W) = Fin d ->
  0 <= t -> t <= d ->
  exists b f,
    position (step ClickSkipBack W) = Some (Fin b) /\
    position (step ClickSkipForward W) = Some (Fin f) /\
    (0 <= b /\ b <= t) /\ (t <= f /\ f <= d) /\
    (10 <= t -> b == t - 10) /\
    (t + 10 <= d -> f == t + 10).
Proof.
  intros Hm Ha Ht Hd H0 H1.
  exists (Qmax 0 (t - 10)), (Qmin d (t + 10)).
  rewrite (position_skip_back W audio), (position_skip_forward W audio) by assumption.
  rewrite Ht, Hd. split; [reflexivity | split; [reflexivity|]].
  destruct (Q.max_spec 0 (t - 10)) as [[A ->]|[A ->]];
    destruct (Q.min_spec d (t + 10)) as [[B ->]|[B ->]];
    repeat split; intros; lra.
Qed.

Lemma skip_stays_in_range_witness :
  let W := run [Metadata (Fin 200); Emit loadedmetadata; Playback (Fin 4)] (mount "a.mp3") in
  exists b f,
    position (step ClickSkipBack W) = Some (Fin b) /\
    position (step ClickSkipForward W) = Some (Fin f) /\
    (0 <= b /\ b <= 4) /\ (4 <= f /\ f <= 200) /\
    (10 <= 4 -> b == 4 - 10) /\
    (4 + 10 <= 200 -> f == 4 + 10).
Proof.
  apply (skip_stays_in_range
           (run [Metadata (Fin 200); Emit loadedmetadata; Playback (Fin 4)] (mount "a.mp3"))
           (set_currentTime (Fin 4) (set_duration (Fin 200)
              (fold_left (fun a r => addEventListener (fst r) (snd r) a)
                 (subscription 0) (set_volume (Fin (75 / 100)) new_audio))))
           4 200); try reflexivity; discriminate.
Defined.

(** X10: Skip-forward clamps to the duration cell, not to the element's
    duration.  While the cell still holds its first value, 0, skip-forward
    sends the element back to position 0; when the cell holds an unbounded
    duration nothing is clamped. *)
Theorem skip_forward_edges (W : World) (audio : Audio) (t : Q) :
  mounted W = true -> audioRef W = Some audio ->
  a_currentTime audio = Fin t ->
  (duration (widget W) = Fin 0 -> 0 <= t ->
   position (step ClickSkipForward W) = Some (Fin 0)) /\
  (duration (widget W) = Inf false ->
   position (step ClickSkipForward W) = Some (Fin (t + 10))).
Proof.
  intros Hm Ha Ht.
  rewrite (position_skip_forward W audio), Ht by assumption.
  split; intros Hd; rewrite Hd; [intros H0|reflexivity].
  simpl. do 2 f_equal. unfold Qmin, GenericMinMax.gmin.
  destruct (Qcompare_spec 0 (t + 10)); auto. lra.
Qed.

Lemma skip_forward_edges_witness :
  position (step ClickSkipForward (run [Playback (Fin 30)] (mount "a.mp3")))
  = Some (Fin 0)
  /\ position
       (step ClickSkipForward
          (run [Metadata (Inf false); Emit loadedmetadata; Playback (Fin 30)]
             (mount "a.mp3")))
     = Some (Fin (30 + 10)).
Proof.
  split.
  - refine (proj1 (skip_forward_edges (run [Playback (Fin 30)] (mount "a.mp3"))
                     _ 30 eq_refl eq_refl eq_refl) eq_refl _).
    discriminate.
  - refine (proj2 (skip_forward_edges
                     (run [Metadata (Inf false); Emit loadedmetadata; Playback (Fin 30)]
                        (mount "a.mp3"))
                     _ 30 eq_refl eq_refl eq_refl) eq_refl).
Defined.

Lemma scale_bounds (x w d : Q) :
  0 < w -> 0 < d ->
  (0 <= x / w * d /\ x / w * d <= d <-> 0 <= x /\ x <= w).
Proof.
  intros Hw Hd.
  assert (Hk : 0 < d / w) by (apply Qlt_shift_div_l; lra).
  assert (E1 : x / w * d == x * (d / w)) by (field; lra).
  assert (E2 : d == w * (d / w)) by (field; lra).
  rewrite E1. set (k := d / w) in *. clearbody k.
  split; intros [A B]; split; nra.
Qed.

Lemma step_click_progress (W : World) (audio : Audio) (clientX rect_left w d : Q) :
  mounted W = true -> audioRef W = Some audio ->
  duration (widget W) = Fin d -> ~ d == 0 -> ~ w == 0 ->
  step (ClickProgress (Fin clientX) (Fin rect_left) (Fin w)) W
  = with_widget (setCurrentTime (Fin ((clientX - rect_left) / w * d)))
      (with_audio (set_currentTime (Fin ((clientX - rect_left) / w * d))) W).
Proof.
  intros Hm Ha Hd Hnz Hw.
  assert (E : handleProgressClick (Fin clientX) (Fin rect_left) (Fin w) W
              = with_widget (setCurrentTime (Fin ((clientX - rect_left) / w * d)))
                  (with_audio (set_currentTime (Fin ((clientX - rect_left) / w * d))) W)).
  { unfold handleProgressClick. rewrite Ha, Hd; simpl.
    rewrite (Qzero_false d Hnz), (Qzero_false w Hw); reflexivity. }
  rewrite step_mounted; simpl; rewrite Hm, E; auto.
  apply commit_idle; reflexivity.
Qed.

(** X11: A click on the progress track puts the element, and the position
    cell, inside [0, d] exactly when the pointer is inside the track:
    the handler itself clamps nothing. *)
Theorem seek_in_range_iff (W : World) (audio : Audio) (clientX rect_left w d : Q) :
  mounted W = true -> audioRef W = Some audio ->
  duration (widget W) = Fin d -> 0 < d -> 0 < w ->
  let x := clientX - rect_left in
  let W' := step (ClickProgress (Fin clientX) (Fin rect_left) (Fin w)) W in
  exists p,
    position W' = Some (Fin p) /\ currentTime (widget W') = Fin p /\
    (0 <= p /\ p <= d <-> 0 <= x /\ x <= w).
Proof.
  intros Hm Ha Hd H0 Hw x W'.
  exists (x / w * d). unfold W'.
  rewrite (step_click_progress W audio clientX rect_left w d) by (auto; lra).
  unfold position; simpl. rewrite Ha.
  split; [reflexivity | split; [reflexivity|]].
  apply scale_bounds; assumption.
Qed.

Lemma seek_in_range_iff_witness :
  let W := run [Metadata (Fin 200); Emit loadedmetadata] (mount "a.mp3") in
  let W' := step (ClickProgress (Fin 150) (Fin 100) (Fin 200)) W in
  exists p,
    position W' = Some (Fin p) /\ currentTime (widget W') = Fin p /\
    (0 <= p /\ p <= 200 <-> 0 <= 150 - 100 /\ 150 - 100 <= 200).
Proof.
  apply (seek_in_range_iff
           (run [Metadata (Fin 200); Emit loadedmetadata] (mount "a.mp3"))
           (set_duration (Fin 200)
              (fold_left (fun a r => addEventListener (fst r) (snd r) a)
                 (subscription 0) (set_volume (Fin (75 / 100)) new_audio)))
           150 100 200 200); reflexivity.
Defined.

(** ** The progress bar *)

(** X12: The width of the progress bar is 0 while the duration cell is 0 or
    [NaN], and also for an unbounded duration; for a position [p] of
    [0, d] it is p / d * 100, a value of [0, 100]. *)
Theorem progress_bounds (w : Widget) :
  (truthy (duration w) = false -> progressPercentage w = Fin 0) /\
  (forall p, currentTime w = Fin p -> duration w = Inf false ->
     exists r, progressPercentage w = Fin r /\ r == 0) /\
  (forall p d, currentTime w = Fin p -> duration w = Fin d ->
     0 < d -> 0 <= p -> p <= d ->
     progressPercentage w = Fin (p / d * 100) /\
     0 <= p / d * 100 /\ p / d * 100 <= 100).
Proof.
  unfold progressPercentage. split; [intros ->; reflexivity|]. split.
  - intros p Hp Hd. rewrite Hp, Hd; simpl. eexists; split; [reflexivity|]. lra.
  - intros p d Hp Hd H0 H1 H2. rewrite Hp, Hd; simpl.
    rewrite (Qzero_false d) by lra. simpl.
    split; [reflexivity|].
    assert (Hk : 0 < / d) by (apply Qinv_lt_0_compat; assumption).
    assert (E : d * / d == 1) by (field; lra).
    unfold Qdiv. set (k := / d) in *. clearbody k. split; nra.
Qed.

Lemma progress_bounds_witness :
  progressPercentage initial = Fin 0 /\
  (progressPercentage (mkWidget true (Fin 50) (Fin 200) (Fin 75) false false)
   = Fin (50 / 200 * 100) /\
   0 <= 50 / 200 * 100 /\ 50 / 200 * 100 <= 100).
Proof.
  split.
  - apply (proj1 (progress_bounds initial)). reflexivity.
  - apply (proj2 (proj2 (progress_bounds
              (mkWidget true (Fin 50) (Fin 200) (Fin 75) false false))) 50 200);
      try reflexivity; discriminate.
Defined.



(** ** Who writes which cell *)

Lemma widget_step (e : event) (W : World) : widget (step e W) = widget (react e W).
Proof. unfold step. destruct (mounted (react e W)); auto using widget_commit. Qed.

Lemma widget_react_subscribed (e : event) (W : World) :
  subscribed W ->
  widget (react e W)
  = widget
      (match e with
       | Emit ty => invoke (handler_for ty) W
       | ClickPlayPause => handlePlayPause W
       | ClickProgress clientX rect_left rect_width =>
           handleProgressClick clientX rect_left rect_width W
       | ChangeVolume value => handleVolumeChange value W
       | ClickLike => handleLike W
       | _ => W
       end).
Proof.
  intros Hs. pose proof Hs as [Hm _].
  destruct e; simpl; rewrite ?Hm; auto.
  - rewrite (dispatch_subscribed _ _ Hs); reflexivity.
  - unfold settle; destruct (pending W); reflexivity.
  - unfold unmount. simpl. apply widget_run_cleanup.
Qed.

Lemma writers_step (e : event) (W : World) :
  wired W ->
  (writes_isPlaying e = false -> isPlaying (widget (step e W)) = isPlaying (widget W)) /\
  (writes_currentTime e = false -> currentTime (widget (step e W)) = currentTime (widget W)) /\
  (writes_duration e = false -> duration (widget (step e W)) = duration (widget W)) /\
  (writes_volume e = false -> volume (widget (step e W)) = volume (widget W)) /\
  (writes_isLiked e = false -> isLiked (widget (step e W)) = isLiked (widget W)) /\
  (writes_isLoading e = false -> isLoading (widget (step e W)) = isLoading (widget W)).
Proof.
  intros [Hs|Hr]; rewrite widget_step.
  - rewrite (widget_react_subscribed e W Hs).
    destruct e; try destruct ty; simpl;
      (split; [|split; [|split; [|split; [|split]]]]); intros H;
      try discriminate H; try reflexivity;
      world W; destruct w as [p c d v l g];
      unfold handlePlayPause, handleProgressClick; simpl;
      try destruct g; try destruct (truthy d); reflexivity.
  - rewrite (widget_react_released e W Hr).
    (split; [|split; [|split; [|split; [|split]]]]); reflexivity.
Qed.

Lemma without_run {A : Type} (writes : event -> bool) (cell : Widget -> A) :
  (forall e W, wired W -> writes e = false ->
               cell (widget (step e W)) = cell (widget W)) ->
  forall trace W, wired W -> without writes trace = true ->
                  cell (widget (run trace W)) = cell (widget W).
Proof.
  intros Hstep trace; induction trace as [|e trace IH]; intros W Hw Ht; simpl in *; auto.
  apply andb_prop in Ht as [He Ht].
  rewrite IH by auto using wired_step.
  apply Hstep; auto. destruct (writes e); auto; discriminate.
Qed.

(** X14: Each cell has its own writers, in every execution from a mount:
    is-playing changes only on the toggle and on [ended], the position
    cell only on a click on the track and on [timeupdate], the duration
    cell only on [loadedmetadata], the volume cell only on the slider,
    is-liked only on the like button, is-loading only on [loadstart] and
    [canplay]. *)
Theorem cells_have_their_writers (W : World) (trace : list event) :
  reachable W ->
  (without writes_isPlaying trace = true ->
   isPlaying (widget (run trace W)) = isPlaying (widget W)) /\
  (without writes_currentTime trace = true ->
   currentTime (widget (run trace W)) = currentTime (widget W)) /\
  (without writes_duration trace = true ->
   duration (widget (run trace W)) = duration (widget W)) /\
  (without writes_volume trace = true ->
   volume (widget (run trace W)) = volume (widget W)) /\
  (without writes_isLiked trace = true ->
   isLiked (widget (run trace W)) = isLiked (widget W)) /\
  (without writes_isLoading trace = true ->
   isLoading (widget (run trace W)) = isLoading (widget W)).
Proof.
  intros (src & before & ->).
  assert (Hw : wired (run before (mount src)))
    by (apply wired_run; left; apply subscribed_mount).
  repeat split; intros Ht;
    (eapply without_run; [|exact Hw|exact Ht]);
    intros e V HV He; apply (writers_step e V HV); exact He.
Qed.

Lemma cells_have_their_writers_witness :
  let W := run [ClickPlayPause; ClickLike] (mount "a.mp3") in
  let trace := [Emit loadstart; Playback (Fin 3); Emit timeupdate;
                ChangeVolume "20"; SwapSrc "b.mp3"; Emit canplay; Unmount] in
  isPlaying (widget (run trace W)) = isPlaying (widget W) /\
  duration (widget (run trace W)) = duration (widget W) /\
  isLiked (widget (run trace W)) = isLiked (widget W).
Proof.
  destruct (cells_have_their_writers
              (run [ClickPlayPause; ClickLike] (mount "a.mp3"))
              [Emit loadstart; Playback (Fin 3); Emit timeupdate;
               ChangeVolume "20"; SwapSrc "b.mp3"; Emit canplay; Unmount])
    as (H1 & _ & H3 & _ & H5 & _).
  { exists "a.mp3", [ClickPlayPause; ClickLike]; reflexivity. }
  exact (conj (H1 eq_refl) (conj (H3 eq_refl) (H5 eq_refl))).
Defined.

(** ** From load start to can-play *)

Lemma isPlaying_emit_subscribed (ty : media_event) (W : World) :
  subscribed W ->
  isPlaying (widget (step (Emit ty) W))
  = match ty with ended => false | _ => isPlaying (widget W) end.
Proof.
  intros Hs. rewrite (widget_emit_subscribed _ _ Hs).
  world W; destruct ty; reflexivity.
Qed.

(** During a load is-playing moves on [ended] only. *)
Lemma loading_step_keeps (e : event) (W : World) :
  subscribed W -> isLoading (widget W) = true ->
  is_ended e = false ->
  isPlaying (widget (step e W)) = isPlaying (widget W).
Proof.
  intros Hs Hl He.
  destruct (is_toggle e) eqn:Ht.
  - destruct e; try discriminate.
    rewrite (toggle_while_loading W (proj1 Hs) Hl). reflexivity.
  - apply (writers_step e W (or_introl Hs)).
    destruct e; try discriminate; try reflexivity.
    destruct ty; try discriminate; reflexivity.
Qed.

Lemma loading_run_keeps (trace : list event) (W : World) :
  subscribed W -> isLoading (widget W) = true ->
  forallb keeps_loading trace = true ->
  without is_ended trace = true ->
  isPlaying (widget (run trace W)) = isPlaying (widget W).
Proof.
  revert W; induction trace as [|e trace IH]; intros W Hs Hl Ht He; simpl in *; auto.
  apply andb_prop in Ht as [Ht1 Ht].
  apply andb_prop in He as [He1 He].
  destruct (loading_step e W Hs Hl Ht1) as (Hs' & Hl' & _).
  rewrite IH by assumption.
  apply loading_step_keeps; auto.
  destruct (is_ended e); auto; discriminate.
Qed.

Lemma loading_run_ended (trace : list event) (W : World) :
  subscribed W -> isLoading (widget W) = true ->
  forallb keeps_loading trace = true ->
  without is_ended trace = false ->
  isPlaying (widget (run trace W)) = false.
Proof.
  revert W; induction trace as [|e trace IH]; intros W Hs Hl Ht He; simpl in *;
    [discriminate|].
  apply andb_prop in Ht as [Ht1 Ht].
  destruct (loading_step e W Hs Hl Ht1) as (Hs' & Hl' & _).
  destruct (is_ended e) eqn:E; simpl in He.
  - destruct e; try discriminate. destruct ty; try discriminate.
    apply (loading_run trace _ Hs' Hl' Ht).
    apply (isPlaying_emit_subscribed ended W Hs).
  - apply IH; assumption.
Qed.

(** C3, amended: [canplay] ends the load and leaves is-playing as it is.
    From [loadstart] to [canplay] the toggle is ignored, so during the
    load is-playing moves on [ended] only.  If it was false when the load
    started it is false at [canplay], and it stays false until the user
    next acts on the toggle.  If it was true when the load started it is
    still true at [canplay], unless an [ended] came in between, and then
    it is false. *)
Theorem canplay_keeps_isPlaying (W : World) (during after : list event) :
  subscribed W ->
  forallb keeps_loading during = true ->
  forallb (fun e => negb (is_toggle e)) after = true ->
  let W1 := run (Emit loadstart :: during) W in
  let W2 := step (Emit canplay) W1 in
  isLoading (widget W1) = true /\
  isLoading (widget W2) = false /\
  isPlaying (widget W2) = isPlaying (widget W1) /\
  (isPlaying (widget W) = false ->
   isPlaying (widget W1) = false /\
   isPlaying (widget W2) = false /\
   isPlaying (widget (run after W2)) = false) /\
  (without is_ended during = true ->
   isPlaying (widget W2) = isPlaying (widget W)) /\
  (without is_ended during = false ->
   isPlaying (widget W2) = false).
Proof.
  intros Hs Hd Ha W1 W2.
  assert (Hs0 : subscribed (step (Emit loadstart) W))
    by (apply subscribed_step; auto).
  assert (E0 : widget (step (Emit loadstart) W) = setIsLoading true (widget W)).
  { rewrite (widget_emit_subscribed _ _ Hs). reflexivity. }
  assert (Hl0 : isLoading (widget (step (Emit loadstart) W)) = true)
    by (rewrite E0; reflexivity).
  destruct (loading_run during _ Hs0 Hl0 Hd) as (Hs1 & Hl1 & Hp1).
  fold (run (Emit loadstart :: during) W) in Hs1, Hl1, Hp1. fold W1 in Hs1, Hl1, Hp1.
  assert (E2 : widget W2 = setIsLoading false (widget W1)).
  { unfold W2. rewrite (widget_emit_subscribed _ _ Hs1). reflexivity. }
  split; [assumption|].
  split; [rewrite E2; reflexivity|].
  split; [rewrite E2; reflexivity|].
  split; [|split].
  - intros Hp.
    assert (Hp1' : isPlaying (widget W1) = false)
      by (apply Hp1; rewrite E0; exact Hp).
    assert (Hp2 : isPlaying (widget W2) = false) by (rewrite E2; exact Hp1').
    auto using run_never_plays.
  - intros He. rewrite E2. cbn [isPlaying setIsLoading]. unfold W1.
    change (run (Emit loadstart :: during) W)
      with (run during (step (Emit loadstart) W)).
    rewrite (loading_run_keeps during _ Hs0 Hl0 Hd He), E0. reflexivity.
  - intros He. rewrite E2. cbn [isPlaying setIsLoading]. unfold W1.
    change (run (Emit loadstart :: during) W)
      with (run during (step (Emit loadstart) W)).
    apply (loading_run_ended during _ Hs0 Hl0 Hd He).
Qed.

Lemma canplay_keeps_isPlaying_witness :
  let W := mount "a.mp3" in
  let W1 := run [Emit loadstart; ClickPlayPause; Metadata (Fin 200); Emit loadedmetadata] W in
  let W2 := step (Emit canplay) W1 in
  let V := run [ClickPlayPause; SwapSrc "b.mp3"] (mount "a.mp3") in
  (isLoading (widget W1) = true /\
   isLoading (widget W2) = false /\
   isPlaying (widget W2) = isPlaying (widget W1) /\
   isPlaying (widget W1) = false /\
   isPlaying (widget W2) = false /\
   isPlaying (widget (run [ClickSkipForward; Emit timeupdate; ClickLike] W2)) = false) /\
  (isPlaying (widget V) = true /\
   isPlaying (widget (step (Emit canplay) (run [Emit loadstart; ClickPlayPause] V)))
   = isPlaying (widget V) /\
   isPlaying
     (widget (step (Emit canplay) (run [Emit loadstart; Emit ended; ClickPlayPause] V)))
   = false).
Proof.
  assert (HV : subscribed (run [ClickPlayPause; SwapSrc "b.mp3"] (mount "a.mp3"))).
  { split; [vm_compute; reflexivity|].
    eexists _, _; repeat split; vm_compute; reflexivity. }
  cbv zeta. split.
  - destruct (canplay_keeps_isPlaying (mount "a.mp3")
                [ClickPlayPause; Metadata (Fin 200); Emit loadedmetadata]
                [ClickSkipForward; Emit timeupdate; ClickLike]
                (subscribed_mount "a.mp3") eq_refl eq_refl)
      as (H1 & H2 & H3 & H4 & _).
    destruct (H4 eq_refl) as (H5 & H6 & H7).
    exact (conj H1 (conj H2 (conj H3 (conj H5 (conj H6 H7))))).
  - split; [vm_compute; reflexivity|]. split.
    + destruct (canplay_keeps_isPlaying
                  (run [ClickPlayPause; SwapSrc "b.mp3"] (mount "a.mp3"))
                  [ClickPlayPause] [] HV eq_refl eq_refl)
        as (_ & _ & _ & _ & H5 & _).
      exact (H5 eq_refl).
    + destruct (canplay_keeps_isPlaying
                  (run [ClickPlayPause; SwapSrc "b.mp3"] (mount "a.mp3"))
                  [Emit ended; ClickPlayPause] [] HV eq_refl eq_refl)
        as (_ & _ & _ & _ & _ & H6).
      exact (H6 eq_refl).
Defined.

(** ** Whole seconds *)

Lemma minutes_of (q : Q) :
  Math_floor (div (Fin q) (Fin 60)) = Fin (inject_Z (Qfloor q / 60)).
Proof.
  unfold div. change (Qzero 60) with false. cbv iota.
  unfold Math_floor. rewrite Qfloor_div60. reflexivity.
Qed.

(** X16: The fraction of a second never shows: a non-negative time is written
    as its whole number of seconds is. *)
Theorem formatTime_whole_seconds (digits : Q -> string) (q : Q) :
  0 <= q ->
  formatTime digits (Fin q) = formatTime digits (Fin (inject_Z (Qfloor q))).
Proof.
  intros Hq.
  assert (Hf : 0 <= inject_Z (Qfloor q)).
  { change 0 with (inject_Z 0). rewrite <- Zle_Qle.
    change 0%Z with (Qfloor 0). apply Qfloor_resp_le, Hq. }
  unfold formatTime. cbn [isNaN]. cbv zeta.
  rewrite !minutes_of, (seconds_of q Hq), (seconds_of _ Hf), Qfloor_Z.
  reflexivity.
Qed.

Lemma formatTime_whole_seconds_witness :
  formatTime (fun _ => "") (Fin (7511 # 2))
  = formatTime (fun _ => "") (Fin (inject_Z (Qfloor (7511 # 2)))).
Proof.
  apply (formatTime_whole_seconds (fun _ => "") (7511 # 2)).
  discriminate.
Defined.

(** ** An empty ref *)

(** X17: Every use of the element is guarded.  With nothing in [audioRef] the
    skips and a click on the track change nothing, the toggle still flips
    is-playing but calls no [play], so no promise is created, and the
    subscription effect registers nothing and returns no cleanup. *)
Theorem empty_ref_is_guarded (W : World) :
  mounted W = true -> audioRef W = None ->
  step ClickSkipBack W = W /\
  step ClickSkipForward W = W /\
  (forall clientX rect_left rect_width,
     step (ClickProgress clientX rect_left rect_width) W = W) /\
  (isLoading (widget W) = false ->
   isPlaying (widget (step ClickPlayPause W)) = negb (isPlaying (widget W)) /\
   pending (step ClickPlayPause W) = pending W) /\
  (audioRef (subscribe W) = None /\ cleanup (subscribe W) = None).
Proof.
  intros Hm Ha.
  destruct W as [[p c d v l g] s a r k n o m]; simpl in *; subst.
  repeat split.
  - unfold step; simpl. apply commit_idle; reflexivity.
  - unfold step; simpl. apply commit_idle; reflexivity.
  - intros; unfold step; simpl. apply commit_idle; reflexivity.
  - rewrite widget_step; simpl in *; subst; reflexivity.
  - simpl in *; subst. unfold step, commit; simpl.
    rewrite String.eqb_refl. destruct p; simpl; rewrite same_refl; reflexivity.
Qed.

Lemma empty_ref_is_guarded_witness :
  let W := mkWorld initial "a.mp3" None 0 None 0 [] true in
  step ClickSkipBack W = W /\
  step ClickSkipForward W = W /\
  step (ClickProgress (Fin 150) (Fin 100) (Fin 200)) W = W /\
  isPlaying (widget (step ClickPlayPause W)) = true /\
  pending (step ClickPlayPause W) = 0%nat.
Proof.
  destruct (empty_ref_is_guarded (mkWorld initial "a.mp3" None 0 None 0 [] true)
              eq_refl eq_refl) as (H1 & H2 & H3 & H4 & _).
  destruct (H4 eq_refl) as (H5 & H6).
  exact (conj H1 (conj H2 (conj (H3 _ _ _) (conj H5 H6)))).
Defined.
